(** * Url_shortner_backend: the click-tracking redirect pipeline

    A shallow embedding of [routes/redirect.js], of the routes of
    [routes/urls.js] and [routes/clicks.js] that read, delete or store one
    document, of the two Mongoose models and of the route table of the entry
    point, with the properties of the redirect pipeline proved over it.

    JavaScript strings are modelled as [string]: sequences of 8-bit code
    units, which is how Node hands over header values (latin-1); the stored
    fields are taken to hold such units too. *)

From Stdlib Require Import String Ascii List Bool Arith NArith Lia.
Import ListNotations.
Local Open Scope string_scope.
Local Open Scope list_scope.

(** ** JavaScript string primitives *)

Module JsString.

(** [s.startsWith(p)] *)
Fixpoint startsWith (s p : string) : bool :=
  match p with
  | EmptyString => true
  | String b p' =>
      match s with
      | EmptyString => false
      | String a s' => Ascii.eqb a b && startsWith s' p'
      end
  end.

(** [s.includes(needle)]: [needle] occurs at some offset of [s]. *)
Fixpoint includes (s needle : string) : bool :=
  startsWith s needle ||
  match s with
  | EmptyString => false
  | String _ rest => includes rest needle
  end.

(** Lower-casing of one latin-1 code unit: A-Z and the accented capitals
    0xC0-0xDE (0xD7, the multiplication sign, excepted) move up by 32. *)
Definition toLowerCase_unit (c : ascii) : ascii :=
  let n := nat_of_ascii c in
  if (((65 <=? n) && (n <=? 90)) ||
      ((192 <=? n) && (n <=? 222) && negb (n =? 215)))%nat
  then ascii_of_nat (n + 32)
  else c.

(** [s.toLowerCase()] *)
Fixpoint toLowerCase (s : string) : string :=
  match s with
  | EmptyString => EmptyString
  | String c rest => String (toLowerCase_unit c) (toLowerCase rest)
  end.

(** [/t1|t2|.../i.test(s)] for literal alternatives: some alternative
    occurs in [s], letter case ignored. *)
Definition test_alternatives_i (alternatives : list string) (s : string) : bool :=
  existsb (fun t => includes (toLowerCase s) (toLowerCase t)) alternatives.

(** White space removed by [trim()] among latin-1 code units:
    TAB, LF, VT, FF, CR, space and the no-break space. *)
Definition isWhiteSpace (c : ascii) : bool :=
  let n := nat_of_ascii c in
  (((9 <=? n) && (n <=? 13)) || (n =? 32) || (n =? 160))%nat.

Fixpoint trimStart (s : string) : string :=
  match s with
  | EmptyString => EmptyString
  | String c rest => if isWhiteSpace c then trimStart rest else s
  end.

(** Drops trailing white space: a unit is kept when it is not white space
    or when something is kept after it. *)
Fixpoint trimEnd (s : string) : string :=
  match s with
  | EmptyString => EmptyString
  | String c rest =>
      match trimEnd rest with
      | EmptyString => if isWhiteSpace c then EmptyString else String c EmptyString
      | kept => String c kept
      end
  end.

(** [s.trim()] *)
Definition trim (s : string) : string := trimEnd (trimStart s).

(** [s.split(sep)[0]] for a one-unit separator: the text before the first
    separator, the whole string when there is none. *)
Fixpoint split_first (sep : ascii) (s : string) : string :=
  match s with
  | EmptyString => EmptyString
  | String c rest =>
      if Ascii.eqb c sep then EmptyString else String c (split_first sep rest)
  end.

(** Truthiness of a string: only the empty string is falsy. *)
Definition truthy (s : string) : bool := negb (String.eqb s "").

(** [v || fallback] where [v] is a string or [undefined]. *)
Definition or_else (v : option string) (fallback : string) : string :=
  match v with
  | Some s => if truthy s then s else fallback
  | None => fallback
  end.

(** [v === literal] where [v] is a string or [undefined]. *)
Definition strict_eq (v : option string) (literal : string) : bool :=
  match v with
  | Some s => String.eqb s literal
  | None => false
  end.

End JsString.

(** ** User-agent classifier ([routes/redirect.js], lines 10-51) *)

Definition mobile_or_tablet_pattern : list string :=
  ["mobile"; "android"; "iphone"; "ipad"; "ipod"; "blackberry"; "iemobile"; "opera mini"].

Definition tablet_pattern : list string := ["tablet"; "ipad"].

Definition getDeviceType (userAgent : string) : string :=
  if negb (JsString.truthy userAgent) then "desktop"
  else
    let userAgent := JsString.toLowerCase userAgent in
    if JsString.test_alternatives_i mobile_or_tablet_pattern userAgent then "mobile"
    else if JsString.test_alternatives_i tablet_pattern userAgent then "tablet"
    else "desktop".

Definition getBrowser (userAgent : string) : string :=
  let has := JsString.includes userAgent in
  if negb (JsString.truthy userAgent) then "Unknown"
  else if has "Firefox" then "Firefox"
  else if has "Edg" then "Edge"
  else if has "Chrome" then "Chrome"
  else if has "Safari" then "Safari"
  else if has "Opera" || has "OPR" then "Opera"
  else if has "MSIE" || has "Trident" then "Internet Explorer"
  else "Other".

Definition getOS (userAgent : string) : string :=
  let has := JsString.includes userAgent in
  if negb (JsString.truthy userAgent) then "Unknown"
  else if has "Windows NT 10" then "Windows 10"
  else if has "Windows NT 6.3" then "Windows 8.1"
  else if has "Windows NT 6.2" then "Windows 8"
  else if has "Windows NT 6.1" then "Windows 7"
  else if has "Windows" then "Windows"
  else if has "Mac OS X" then "macOS"
  else if has "Android" then "Android"
  else if has "iPhone" || has "iPad" then "iOS"
  else if has "Linux" then "Linux"
  else "Other".

(** ** Data model ([models/Url.js], [models/Click.js])

    The fields the routes write or read; [createdAt] is a time stamp that no
    route below inspects and is left out. A Mongo ObjectId is a [nat]. *)

Definition ObjectId := nat.

Module Url.
Record t := {
  _id : ObjectId;
  userId : ObjectId;
  title : string;
  originalUrl : string;
  shortUrl : string;
  customUrl : option string;   (* [null] when the link has no alias *)
  qr : string;
  qrPublicId : string
}.
End Url.

Module Click.
Record t := {
  urlId : ObjectId;
  city : string;
  country : string;
  region : string;
  device : string;
  browser : string;
  os : string;
  ip : string;
  referer : string
}.
End Click.

(** The two collections. Documents are kept in insertion order, the order in
    which [findOne] without a sort looks at them. *)
Record Db := {
  urls : list Url.t;
  clicks : list Click.t
}.

(** A Mongo filter over the [Url] collection, as far as the routes use it. *)
Inductive UrlFilter :=
| ById (id : ObjectId)               (* { _id: id } *)
| ByUserId (id : ObjectId)           (* { userId: id } *)
| ByShortUrl (s : string)            (* { shortUrl: s } *)
| ByCustomUrl (s : string)           (* { customUrl: s } *)
| Both (f g : UrlFilter)             (* { ...f, ...g } *)
| Either (f g : UrlFilter).          (* { $or: [f, g] } *)

Fixpoint satisfies (f : UrlFilter) (u : Url.t) : bool :=
  match f with
  | ById id => Nat.eqb (Url._id u) id
  | ByUserId id => Nat.eqb (Url.userId u) id
  | ByShortUrl s => String.eqb (Url.shortUrl u) s
  | ByCustomUrl s =>
      match Url.customUrl u with
      | Some alias => String.eqb alias s
      | None => false
      end
  | Both f g => satisfies f u && satisfies g u
  | Either f g => satisfies f u || satisfies g u
  end.

(** What the geolocation provider's body parses to. The provider serves its
    fields as strings; a field that is absent or [null] reads as [None]. A
    body that is a bare number, string or array has none of the fields and
    behaves as an object without them. *)
Inductive Json :=
| JNull
| JObject (fields : list (string * string)).

(** Reading a field of a parsed object: of two entries with one name the
    later one counts, as in [JSON.parse]. *)
Fixpoint lookup_field (name : string) (fields : list (string * string)) : option string :=
  match fields with
  | [] => None
  | (k, v) :: rest =>
      match lookup_field name rest with
      | Some later => Some later
      | None => if String.eqb k name then Some v else None
      end
  end.

(** What [fetch] resolves to: [parsed] is [None] when the body is not JSON. *)
Record FetchResponse := { parsed : option Json }.

Inductive JsError := Error (message : string).

Definition error_message (e : JsError) : string :=
  match e with Error m => m end.

(** ** Awaited calls, replies and the event trace *)

(** The calls whose promise a route awaits: store operations, the image
    service and the outbound HTTP request. *)
Inductive Op :=
| OpUrlFindOne (filter : UrlFilter)       (* Url.findOne(filter) *)
| OpUrlDeleteOne (id : ObjectId)          (* url.deleteOne() *)
| OpClickCreate (doc : Click.t)           (* Click.create(doc) *)
| OpClickDeleteMany (urlId : ObjectId)    (* Click.deleteMany({ urlId }) *)
| OpDeleteImage (publicId : string)       (* deleteImage(publicId) *)
| OpFetch (url : string)                  (* fetch(url) *)
| OpResponseJson (response : FetchResponse). (* response.json() *)

(** What a fulfilled call yields. *)
Inductive Value :=
| VUrl (doc : option Url.t)
| VResponse (response : FetchResponse)
| VJson (data : Json)
| VUndefined.

Inductive Completion (A : Type) :=
| Normal (a : A)
| Thrown (e : JsError).
Arguments Normal {A} a.
Arguments Thrown {A} e.

(** Body of an Express response. *)
Inductive Payload :=
| JsonMessage (success : bool) (message : string)      (* { success, message } *)
| JsonLookup (id : ObjectId) (original_url : string)   (* { success: true, data: { id, original_url } } *)
| NotFoundPage                                         (* the HTML page titled Link Not Found *)
| Text (body : string)
| RedirectNotice.                                      (* the body res.redirect writes *)

Record Reply := {
  status : nat;
  location : option string;    (* the Location header *)
  payload : Payload
}.

Inductive Event :=
| Issued (op : Op)                        (* the call is made *)
| Settled (op : Op) (fulfilled : bool)    (* its promise settles *)
| Responded (r : Reply)                   (* res.json / res.send / res.redirect *)
| Logged (label : string)                 (* console.error(label, error) *)
| UnhandledRejection (e : JsError).       (* a promise chain ends rejected *)

(** Everything outside the program: which awaited calls reject, and what the
    geolocation provider serves for a request URL. Every call settles: it is
    fulfilled or it rejects. *)
Record World := {
  rejects : Op -> option JsError;
  provider : string -> FetchResponse
}.

Record Runtime := {
  db : Db;
  trace : list Event      (* oldest first *)
}.

Definition emit (ev : Event) (rt : Runtime) : Runtime :=
  {| db := db rt; trace := trace rt ++ [ev] |}.

(** Several events at once. *)
Definition extend (evs : list Event) (rt : Runtime) : Runtime :=
  {| db := db rt; trace := trace rt ++ evs |}.

(** [url.deleteOne()] removes the one document with that [_id]. *)
Fixpoint remove_first_by_id (id : ObjectId) (docs : list Url.t) : list Url.t :=
  match docs with
  | [] => []
  | u :: rest => if Nat.eqb (Url._id u) id then rest else u :: remove_first_by_id id rest
  end.

(** The effect of a call that the world lets through. *)
Definition perform (w : World) (op : Op) (d : Db) : Completion Value * Db :=
  match op with
  | OpUrlFindOne filter => (Normal (VUrl (find (satisfies filter) (urls d))), d)
  | OpUrlDeleteOne id =>
      (Normal VUndefined, {| urls := remove_first_by_id id (urls d); clicks := clicks d |})
  | OpClickCreate doc =>
      (Normal VUndefined, {| urls := urls d; clicks := clicks d ++ [doc] |})
  | OpClickDeleteMany id =>
      (Normal VUndefined,
       {| urls := urls d;
          clicks := filter (fun c => negb (Nat.eqb (Click.urlId c) id)) (clicks d) |})
  | OpDeleteImage _ => (Normal VUndefined, d)
  | OpFetch url => (Normal (VResponse (provider w url)), d)
  | OpResponseJson response =>
      match parsed response with
      | Some data => (Normal (VJson data), d)
      | None => (Thrown (Error "Unexpected token in JSON"), d)
      end
  end.

(** Settling a call: it rejects when the world says so and leaves the store
    alone, otherwise it takes effect. Either way the trace records it. *)
Definition settle (w : World) (op : Op) (rt : Runtime) : Completion Value * Runtime :=
  match rejects w op with
  | Some e => (Thrown e, emit (Settled op false) rt)
  | None =>
      let '(r, d) := perform w op (db rt) in
      (r, {| db := d;
             trace := trace rt ++ [Settled op (match r with Normal _ => true | Thrown _ => false end)] |})
  end.

(** ** Asynchronous programs

    A route handler is a tree of steps. [J] is the kind of promise chain a
    handler may leave unawaited; a chain itself leaves none ([Task]). *)
Inductive Js (J A : Type) : Type :=
| Ret (a : A)
| Throw (e : JsError)
| Do (ev : Event) (k : Js J A)                       (* res.* and console.error *)
| Await (op : Op) (k : Completion Value -> Js J A)   (* await op *)
| Reaction (k : Js J A)                              (* the start of a .then callback *)
| Detach (job : J) (k : Js J A).                     (* a promise chain nobody awaits *)
Arguments Ret {J A} a.
Arguments Throw {J A} e.
Arguments Do {J A} ev k.
Arguments Await {J A} op k.
Arguments Reaction {J A} k.
Arguments Detach {J A} job k.

Definition Task := Js Empty_set.
Definition Handler := Js (Task unit) unit.

Fixpoint bind {J A B} (p : Js J A) (f : A -> Js J B) : Js J B :=
  match p with
  | Ret a => f a
  | Throw e => Throw e
  | Do ev k => Do ev (bind k f)
  | Await op k => Await op (fun r => bind (k r) f)
  | Reaction k => Reaction (bind k f)
  | Detach job k => Detach job (bind k f)
  end.

(** [try { p } catch (e) { h e }]. A detached chain is not covered by the
    block it was started in. *)
Fixpoint try_catch {J A} (p : Js J A) (h : JsError -> Js J A) : Js J A :=
  match p with
  | Ret a => Ret a
  | Throw e => h e
  | Do ev k => Do ev (try_catch k h)
  | Await op k => Await op (fun r => try_catch (k r) h)
  | Reaction k => Reaction (try_catch k h)
  | Detach job k => Detach job (try_catch k h)
  end.

Declare Scope js_scope.
Delimit Scope js_scope with js.
Notation "x <- p ;; q" := (bind p (fun x => q))
  (at level 61, p at next level, right associativity) : js_scope.
Notation "p ;; q" := (bind p (fun _ => q))
  (at level 61, right associativity) : js_scope.
Local Open Scope js_scope.

(** [promise.then(callback)] with the result dropped: the callee has run up
    to its first [await] when the call returns; the callback runs later, as
    a reaction, also when the promise is already settled. *)
Definition then_detached {B} (promise : Task B) (callback : B -> Task unit) : Handler :=
  Detach (b <- promise ;; Reaction (callback b)) (Ret tt).

(** A promise chain that is waiting. *)
Inductive Parked :=
| AtAwait (op : Op) (k : Completion Value -> Task unit)
| AtReaction (k : Task unit).

(** Starting a chain: it runs synchronously until it has to wait. *)
Fixpoint start (job : Task unit) (rt : Runtime) : list Parked * Runtime :=
  match job with
  | Ret _ => ([], rt)
  | Throw e => ([], emit (UnhandledRejection e) rt)
  | Do ev k => start k (emit ev rt)
  | Await op k => ([AtAwait op k], emit (Issued op) rt)
  | Reaction k => ([AtReaction k], rt)
  | Detach job _ => match job with end
  end.

(** Running a program to its end. Each awaited call is issued and settled in
    turn; a detached chain is started on the spot and parked until the
    program that started it has returned. *)
Fixpoint run {J A} (launch : J -> Runtime -> list Parked * Runtime)
    (w : World) (p : Js J A) (rt : Runtime) : Completion A * Runtime * list Parked :=
  match p with
  | Ret a => (Normal a, rt, [])
  | Throw e => (Thrown e, rt, [])
  | Do ev k => run launch w k (emit ev rt)
  | Await op k =>
      let '(r, rt1) := settle w op (emit (Issued op) rt) in
      run launch w (k r) rt1
  | Reaction k => run launch w k rt
  | Detach job k =>
      let '(parked, rt1) := launch job rt in
      let '(r, rt2, later) := run launch w k rt1 in
      (r, rt2, parked ++ later)
  end.

Definition no_launch (job : Empty_set) (rt : Runtime) : list Parked * Runtime :=
  match job with end.

(** A chain run on its own, from its first step to its last. *)
Definition run_task {A} (w : World) (p : Task A) (rt : Runtime) : Completion A * Runtime :=
  let '(r, rt1, _) := run no_launch w p rt in (r, rt1).

Definition report {A} (r : Completion A) (rt : Runtime) : Runtime :=
  match r with
  | Normal _ => rt
  | Thrown e => emit (UnhandledRejection e) rt
  end.

(** A parked chain resumes: the call it waits for settles, and the rest runs. *)
Definition resume (w : World) (p : Parked) (rt : Runtime) : Runtime :=
  match p with
  | AtAwait op k =>
      let '(r, rt1) := settle w op rt in
      let '(out, rt2) := run_task w (k r) rt1 in
      report out rt2
  | AtReaction k =>
      let '(out, rt1) := run_task w k rt in
      report out rt1
  end.

(** One request served on its own against a store: the handler runs, then
    the chains it left behind, and no other request is handled in between.
    [serve_overlapping] below lets a second request in. *)
Definition serve (w : World) (handler : Handler) (d : Db) : Runtime :=
  let '(out, rt, parked) := run start w handler {| db := d; trace := [] |} in
  fold_left (fun rt p => resume w p rt) parked (report out rt).

(** The response the client sees: the first one written. *)
Fixpoint response_of (events : list Event) : option Reply :=
  match events with
  | [] => None
  | Responded r :: _ => Some r
  | _ :: rest => response_of rest
  end.

(** ** Express requests and responses *)

(** The parts of [req] the routes read. [params_id] is the [:id] segment
    already cast to an ObjectId (a segment that does not cast makes the
    query reject); [user_id] is [req.user._id], set by the auth middleware. *)
Record Request := {
  params_shortCode : string;
  params_id : ObjectId;
  headers : string -> option string;
  connection_remoteAddress : option string;
  socket_remoteAddress : option string;
  req_ip : option string;
  user_id : ObjectId
}.

Definition await {J A} (op : Op) (decode : Value -> option A) : Js J A :=
  Await op (fun r =>
    match r with
    | Thrown e => Throw e
    | Normal v =>
        match decode v with
        | Some a => Ret a
        | None => Throw (Error "TypeError")
        end
    end).

Definition Url_findOne {J} (filter : UrlFilter) : Js J (option Url.t) :=
  await (OpUrlFindOne filter) (fun v => match v with VUrl doc => Some doc | _ => None end).

Definition Url_deleteOne {J} (u : Url.t) : Js J unit :=
  await (OpUrlDeleteOne (Url._id u)) (fun _ => Some tt).

Definition Click_create {J} (doc : Click.t) : Js J unit :=
  await (OpClickCreate doc) (fun _ => Some tt).

Definition Click_deleteMany {J} (urlId : ObjectId) : Js J unit :=
  await (OpClickDeleteMany urlId) (fun _ => Some tt).

Definition deleteImage {J} (publicId : string) : Js J unit :=
  await (OpDeleteImage publicId) (fun _ => Some tt).

Definition fetch {J} (url : string) : Js J FetchResponse :=
  await (OpFetch url) (fun v => match v with VResponse r => Some r | _ => None end).

Definition response_json {J} (response : FetchResponse) : Js J Json :=
  await (OpResponseJson response) (fun v => match v with VJson data => Some data | _ => None end).

(** [data.name]: reading a property of [null] raises a TypeError. *)
Definition prop {J} (data : Json) (name : string) : Js J (option string) :=
  match data with
  | JNull => Throw (Error "Cannot read properties of null")
  | JObject fields => Ret (lookup_field name fields)
  end.

Definition console_error {J} (label : string) : Js J unit :=
  Do (Logged label) (Ret tt).

Definition res_send {J} (code : nat) (body : Payload) : Js J unit :=
  Do (Responded {| status := code; location := None; payload := body |}) (Ret tt).

Definition res_json {J} (code : nat) (success : bool) (message : string) : Js J unit :=
  res_send code (JsonMessage success message).

(** ** [res.redirect] (Express 4.21, [lib/response.js])

    [res.redirect(code, url)] sets the Location header through
    [res.location(url)]: the url "back" stands for the request's referrer,
    and what is written is [encodeUrl] of the address ([encodeurl] 2.0). *)

(** [set] holds the code unit [c]. *)
Fixpoint contains (set : string) (c : ascii) : bool :=
  match set with
  | EmptyString => false
  | String x rest => Ascii.eqb x c || contains rest c
  end.

(** [[0-9A-Fa-f]] *)
Definition is_hex (c : ascii) : bool := contains "0123456789ABCDEFabcdef" c.

(** The code units [encodeUrl] takes for part of a URL, the complement of
    its pattern's class [[^\x21\x23-\x3B\x3D\x3F-\x5F\x61-\x7A\x7C\x7E]]. *)
Definition url_unit (c : ascii) : bool :=
  let n := nat_of_ascii c in
  ((n =? 33) || ((35 <=? n) && (n <=? 59)) || (n =? 61) || ((63 <=? n) && (n <=? 95)) ||
   ((97 <=? n) && (n <=? 122)) || (n =? 124) || (n =? 126))%nat.

(** The code units [encodeURI] leaves as they are: letters, digits, the
    reserved marks, the unescaped marks and the number sign. *)
Definition uri_unit (c : ascii) : bool :=
  contains "ABCDEFGHIJKLMNOPQRSTUVWXYZabcdefghijklmnopqrstuvwxyz0123456789;/?:@&=+$,-_.!~*'()#" c.

Definition hex_digit (n : nat) : ascii :=
  match n with
  | 0 => "0" | 1 => "1" | 2 => "2" | 3 => "3" | 4 => "4" | 5 => "5" | 6 => "6" | 7 => "7"
  | 8 => "8" | 9 => "9" | 10 => "A" | 11 => "B" | 12 => "C" | 13 => "D" | 14 => "E" | _ => "F"
  end%char.

(** [%XX] for one octet. *)
Definition percent (octet : nat) : string :=
  String "%" (String (hex_digit (octet / 16)) (String (hex_digit (octet mod 16)) EmptyString)).

(** [encodeURI] of one latin-1 code unit: itself, or the escapes of its
    UTF-8 octets (one below 0x80, two from there on). *)
Definition encodeURI_unit (c : ascii) : string :=
  let n := nat_of_ascii c in
  if uri_unit c then String c EmptyString
  else if (n <? 128)%nat then percent n
  else percent (192 + n / 64) ++ percent (128 + n mod 64).

(** [encodeUrl(url)]: every run matched by
    [(?:[^...]|%(?:[^0-9A-Fa-f]|[0-9A-Fa-f][^0-9A-Fa-f]|$))+] is replaced by
    its [encodeURI]. A unit outside the class is matched alone; a percent
    sign is matched, with the one or two units behind it, when no two hex
    digits follow it, and alone when it ends the text (a percent sign and one
    hex digit at the very end are not matched). *)
Fixpoint encodeUrl (url : string) : string :=
  match url with
  | EmptyString => EmptyString
  | String c rest =>
      if Ascii.eqb c "%" then
        match rest with
        | EmptyString => percent 37
        | String h1 rest1 =>
            if is_hex h1 then
              match rest1 with
              | EmptyString => String c (encodeUrl rest)
              | String h2 rest2 =>
                  if is_hex h2 then String c (encodeUrl rest)
                  else percent 37 ++ encodeURI_unit h1 ++ encodeURI_unit h2 ++ encodeUrl rest2
              end
            else percent 37 ++ encodeURI_unit h1 ++ encodeUrl rest1
        end
      else if url_unit c then String c (encodeUrl rest)
      else encodeURI_unit c ++ encodeUrl rest
  end.

(** [req.get('Referrer')] ([lib/request.js]): the header under either
    spelling, [headers.referrer || headers.referer]. *)
Definition req_get_referrer (req : Request) : option string :=
  match headers req "referrer" with
  | Some s => if JsString.truthy s then Some s else headers req "referer"
  | None => headers req "referer"
  end.

(** The Location header [res.location(url)] writes. *)
Definition res_location (req : Request) (url : string) : string :=
  encodeUrl (if String.eqb url "back"
             then JsString.or_else (req_get_referrer req) "/"
             else url).

Definition res_redirect {J} (req : Request) (code : nat) (url : string) : Js J unit :=
  Do (Responded {| status := code; location := Some (res_location req url);
                   payload := RedirectNotice |}) (Ret tt).

(** ** Client identity resolver ([routes/redirect.js], lines 56-62) *)

Definition getClientIP (req : Request) : string :=
  let fallback :=
    JsString.or_else (connection_remoteAddress req)
      (JsString.or_else (socket_remoteAddress req)
         (JsString.or_else (req_ip req) "Unknown")) in
  match headers req "x-forwarded-for" with
  | Some forwarded =>
      if JsString.truthy forwarded
      then JsString.trim (JsString.split_first "," forwarded)
      else fallback
  | None => fallback
  end.

(** ** Geolocation resolver ([routes/redirect.js], lines 67-91) *)

Record Geo := { city : string; country : string; region : string }.

Definition geo_local : Geo := {| city := "Local"; country := "Local"; region := "Local" |}.
Definition geo_unknown : Geo := {| city := "Unknown"; country := "Unknown"; region := "Unknown" |}.

(** The condition of the short-circuit. *)
Definition is_local_ip (ip : string) : bool :=
  String.eqb ip "127.0.0.1" || String.eqb ip "::1" || String.eqb ip "localhost" ||
  JsString.startsWith ip "192.168." || JsString.startsWith ip "10.".

Definition geo_api_url (ip : string) : string :=
  "http://ip-api.com/json/" ++ ip ++ "?fields=status,country,regionName,city".

Definition getGeolocation (ip : string) : Task Geo :=
  try_catch
    (if is_local_ip ip then Ret geo_local
     else
       response <- fetch (geo_api_url ip) ;;
       data <- response_json response ;;
       status <- prop data "status" ;;
       if JsString.strict_eq status "success" then
         c <- prop data "city" ;;
         n <- prop data "country" ;;
         r <- prop data "regionName" ;;
         Ret {| city := JsString.or_else c "Unknown";
                country := JsString.or_else n "Unknown";
                region := JsString.or_else r "Unknown" |}
       else Ret geo_unknown)
    (fun error => console_error "Geolocation error:" ;; Ret geo_unknown).

(** ** Redirect orchestrator ([routes/redirect.js], lines 115-179) *)

(** [{ $or: [{ shortUrl: shortCode }, { customUrl: shortCode }] }] *)
Definition short_or_custom (shortCode : string) : UrlFilter :=
  Either (ByShortUrl shortCode) (ByCustomUrl shortCode).

Definition redirect_handler (req : Request) : Handler :=
  try_catch
    (let shortCode := params_shortCode req in
     if String.eqb shortCode "api" then res_json 404 false "Not found"
     else
       found <- Url_findOne (short_or_custom shortCode) ;;
       match found with
       | None => res_send 404 NotFoundPage
       | Some url =>
           let userAgent := JsString.or_else (headers req "user-agent") "" in
           let ip := getClientIP req in
           let referer := JsString.or_else (headers req "referer") "Direct" in
           let device := getDeviceType userAgent in
           let browser := getBrowser userAgent in
           let os := getOS userAgent in
           then_detached (getGeolocation ip) (fun geo =>
             try_catch
               (Click_create
                  {| Click.urlId := Url._id url;
                     Click.ip := ip;
                     Click.city := city geo;
                     Click.country := country geo;
                     Click.region := region geo;
                     Click.device := device;
                     Click.browser := browser;
                     Click.os := os;
                     Click.referer := referer |})
               (fun clickError => console_error "Error saving click:")) ;;
           res_redirect req 302 (Url.originalUrl url)
       end)
    (fun error =>
       console_error "Redirect error:" ;;
       res_send 500 (Text "Error processing redirect")).

(** ** Lookup endpoint ([routes/redirect.js], lines 185-218) *)

Definition lookup_handler (req : Request) : Handler :=
  try_catch
    (let shortCode := params_shortCode req in
     found <- Url_findOne (short_or_custom shortCode) ;;
     match found with
     | None => res_json 404 false "Short link not found"
     | Some url => res_send 200 (JsonLookup (Url._id url) (Url.originalUrl url))
     end)
    (fun error =>
       console_error "Lookup error:" ;;
       res_json 500 false (JsString.or_else (Some (error_message error)) "Error looking up URL")).

(** ** Delete route ([routes/urls.js], lines 175-211) *)

Definition delete_handler (req : Request) : Handler :=
  try_catch
    (found <- Url_findOne (Both (ById (params_id req)) (ByUserId (user_id req))) ;;
     match found with
     | None => res_json 404 false "URL not found"
     | Some url =>
         (if JsString.truthy (Url.qrPublicId url)
          then deleteImage (Url.qrPublicId url)
          else Ret tt) ;;
         Click_deleteMany (Url._id url) ;;
         Url_deleteOne url ;;
         res_json 200 true "URL deleted successfully"
     end)
    (fun error =>
       console_error "Delete URL error:" ;;
       res_json 500 false (JsString.or_else (Some (error_message error)) "Error deleting URL")).

(** ** Vocabulary of the properties *)

(** How the provider lookup for an address ends, read off the world: the
    request fails, the body cannot be used (unparseable, or [null]), or an
    object arrives. *)
Inductive LookupOutcome :=
| NetworkError
| MalformedResponse
| Answered (fields : list (string * string)).

Definition lookup_outcome (w : World) (ip : string) : LookupOutcome :=
  let url := geo_api_url ip in
  match rejects w (OpFetch url) with
  | Some _ => NetworkError
  | None =>
      let response := provider w url in
      match rejects w (OpResponseJson response), parsed response with
      | Some _, _ => MalformedResponse
      | None, None => MalformedResponse
      | None, Some JNull => MalformedResponse
      | None, Some (JObject fields) => Answered fields
      end
  end.

(** The provider reports success. *)
Definition status_success (fields : list (string * string)) : bool :=
  JsString.strict_eq (lookup_field "status" fields) "success".

(** The location the resolver answers with in a world: the Local triple on
    the short-circuit, otherwise what the lookup's outcome gives. *)
Definition located (w : World) (ip : string) : Geo :=
  if is_local_ip ip then geo_local
  else
    match lookup_outcome w ip with
    | NetworkError | MalformedResponse => geo_unknown
    | Answered fields =>
        if status_success fields
        then {| city := JsString.or_else (lookup_field "city" fields) "Unknown";
                country := JsString.or_else (lookup_field "country" fields) "Unknown";
                region := JsString.or_else (lookup_field "regionName" fields) "Unknown" |}
        else geo_unknown
    end.

(** [ev] is the outbound request being sent. *)
Definition is_fetch (ev : Event) : bool :=
  match ev with
  | Issued (OpFetch _) => true
  | _ => false
  end.

(** The events of a provider lookup. *)
Definition is_lookup_event (ev : Event) : bool :=
  match ev with
  | Issued (OpFetch _) | Issued (OpResponseJson _) => true
  | Settled (OpFetch _) _ | Settled (OpResponseJson _) _ => true
  | Logged _ => true
  | _ => false
  end.

(** The document the redirect route hands to [Click.create] for a request
    that resolved [url], once the location is known. *)
Definition click_of (req : Request) (url : Url.t) (geo : Geo) : Click.t :=
  let userAgent := JsString.or_else (headers req "user-agent") "" in
  {| Click.urlId := Url._id url;
     Click.ip := getClientIP req;
     Click.city := city geo;
     Click.country := country geo;
     Click.region := region geo;
     Click.device := getDeviceType userAgent;
     Click.browser := getBrowser userAgent;
     Click.os := getOS userAgent;
     Click.referer := JsString.or_else (headers req "referer") "Direct" |}.

(** The reaction of the redirect route to the settled location. *)
Definition save_click (c : Click.t) : Task unit :=
  try_catch (Click_create c) (fun clickError => console_error "Error saving click:").

(** What that reaction leaves in the trace. *)
Definition save_click_events (w : World) (c : Click.t) : list Event :=
  match rejects w (OpClickCreate c) with
  | Some _ => [Issued (OpClickCreate c); Settled (OpClickCreate c) false;
               Logged "Error saving click:"]
  | None => [Issued (OpClickCreate c); Settled (OpClickCreate c) true]
  end.

(** The store after it. *)
Definition save_click_db (w : World) (c : Click.t) (d : Db) : Db :=
  match rejects w (OpClickCreate c) with
  | Some _ => d
  | None => {| urls := urls d; clicks := clicks d ++ [c] |}
  end.

(** The chain the redirect route leaves unawaited. *)
Definition locate_and_save (req : Request) (url : Url.t) : Task unit :=
  geo <- getGeolocation (getClientIP req) ;;
  Reaction (save_click (click_of req url geo)).

(** What the synchronous start of that chain records: the request to the
    provider, unless the address short-circuits. *)
Definition lookup_started (req : Request) : list Event :=
  if is_local_ip (getClientIP req) then []
  else [Issued (OpFetch (geo_api_url (getClientIP req)))].

(** The 302 of the redirect route. *)
Definition reply_redirect (req : Request) (url : Url.t) : Reply :=
  {| status := 302; location := Some (res_location req (Url.originalUrl url));
     payload := RedirectNotice |}.

(** Text that [encodeUrl] has nothing to do on: URL code units only, every
    percent sign followed by two hex digits. *)
Fixpoint well_escaped (s : string) : bool :=
  match s with
  | EmptyString => true
  | String c rest =>
      url_unit c &&
      (if Ascii.eqb c "%" then
         match rest with
         | String h1 (String h2 _) => is_hex h1 && is_hex h2
         | _ => false
         end
       else true) &&
      well_escaped rest
  end.

(** What the redirect route has recorded when the store has answered. *)
Definition resolved_events (shortCode : string) : list Event :=
  [Issued (OpUrlFindOne (short_or_custom shortCode));
   Settled (OpUrlFindOne (short_or_custom shortCode)) true].

(** The segment is the link's generated short code or its custom alias. *)
Definition matches_segment (segment : string) (u : Url.t) : Prop :=
  Url.shortUrl u = segment \/ Url.customUrl u = Some segment.

(** What the store answers to the query of the two public routes. *)
Definition resolve (docs : list Url.t) (segment : string) : option Url.t :=
  find (satisfies (short_or_custom segment)) docs.

(** The data-model invariant on short codes and aliases: a segment resolves
    to at most one link. *)
Definition lookup_unambiguous (docs : list Url.t) : Prop :=
  forall segment u1 u2,
    In u1 docs -> In u2 docs ->
    matches_segment segment u1 -> matches_segment segment u2 -> u1 = u2.

(** The store answers the resolver's query for the segment. *)
Definition store_answers (w : World) (segment : string) : Prop :=
  rejects w (OpUrlFindOne (short_or_custom segment)) = None.

Definition is_response (ev : Event) : bool :=
  match ev with
  | Responded _ => true
  | _ => false
  end.

Definition is_rejection (ev : Event) : bool :=
  match ev with
  | UnhandledRejection _ => true
  | _ => false
  end.

(** [ev] is a call of [Click.create]. *)
Definition is_click_create (ev : Event) : bool :=
  match ev with
  | Issued (OpClickCreate _) => true
  | _ => false
  end.

(** [ev] belongs to the outcome of the background work: the provider lookup
    settling, or the click insert. *)
Definition is_background_outcome (ev : Event) : bool :=
  match ev with
  | Settled (OpFetch _) _ | Settled (OpResponseJson _) _ => true
  | Issued (OpResponseJson _) => true
  | Issued (OpClickCreate _) | Settled (OpClickCreate _) _ => true
  | _ => false
  end.

(** Every click refers to a link that is in the store. *)
Definition no_orphans (d : Db) : Prop :=
  forall c, In c (clicks d) -> exists u, In u (urls d) /\ Url._id u = Click.urlId c.

(** The query of the delete route: the link with that id, owned by the caller. *)
Definition owned_by_id (req : Request) : UrlFilter :=
  Both (ById (params_id req)) (ByUserId (user_id req)).

(** ** Sample data for closed instances *)

(** No call rejects; the provider answers every request with a full record. *)
Definition world_calm : World :=
  {| rejects := fun _ => None;
     provider := fun _ =>
       {| parsed := Some (JObject [("status", "success"); ("city", "Paris");
                                   ("country", "France"); ("regionName", "Ile-de-France")]) |} |}.

(** The provider cannot be reached; the store works. *)
Definition world_offline : World :=
  {| rejects := fun op =>
       match op with
       | OpFetch _ => Some (Error "fetch failed")
       | _ => None
       end;
     provider := fun _ => {| parsed := None |} |}.

Definition db_empty : Db := {| urls := []; clicks := [] |}.

Definition runtime_idle : Runtime := {| db := db_empty; trace := [] |}.

Definition link_abc123 : Url.t :=
  {| Url._id := 1; Url.userId := 7; Url.title := "My site";
     Url.originalUrl := "https://example.com/landing";
     Url.shortUrl := "abc123"; Url.customUrl := Some "mysite";
     Url.qr := ""; Url.qrPublicId := "" |}.

(** A link whose owner chose the alias "api". *)
Definition link_alias_api : Url.t :=
  {| Url._id := 2; Url.userId := 7; Url.title := "Docs";
     Url.originalUrl := "https://example.com/docs";
     Url.shortUrl := "x9k2pq"; Url.customUrl := Some "api";
     Url.qr := ""; Url.qrPublicId := "" |}.

Definition click_on (id : ObjectId) : Click.t :=
  {| Click.urlId := id; Click.city := "Paris"; Click.country := "France";
     Click.region := "Ile-de-France"; Click.device := "desktop";
     Click.browser := "Firefox"; Click.os := "Linux"; Click.ip := "8.8.8.8";
     Click.referer := "Direct" |}.

Definition db_sample : Db :=
  {| urls := [link_abc123; link_alias_api];
     clicks := [click_on 1; click_on 2; click_on 1] |}.

(** A request for a path segment from a public address, made by user 7 and,
    for the delete route, naming link 1. *)
Definition request_for (segment : string) : Request :=
  {| params_shortCode := segment;
     params_id := 1;
     headers := fun name =>
       if String.eqb name "x-forwarded-for" then Some "8.8.8.8, 10.0.0.1"
       else if String.eqb name "user-agent" then Some "Mozilla/5.0 (X11; Linux x86_64) Firefox/120.0"
       else None;
     connection_remoteAddress := Some "10.0.0.1";
     socket_remoteAddress := None;
     req_ip := None;
     user_id := 7 |}.

(** The same visitor on the local network, with no proxy in between. *)
Definition request_local (segment : string) : Request :=
  {| params_shortCode := segment;
     params_id := 1;
     headers := fun _ => None;
     connection_remoteAddress := Some "192.168.1.5";
     socket_remoteAddress := Some "192.168.1.5";
     req_ip := Some "192.168.1.5";
     user_id := 7 |}.

(** ** Responses that carry a document

    The routes below answer with a document in the body. They are written as
    programs whose value is the answer: [res.status(c).json(b)] ends the
    program with [(c, b)]. *)

Inductive Body :=
| BodyMessage (success : bool) (message : string)   (* { success, message } *)
| BodyUrl (doc : Url.t)                             (* { success: true, data: { ...the link } } *)
| BodyClick (doc : Click.t).                        (* { success: true, data: { ...the click } } *)

Record Answer := {
  answer_status : nat;
  answer_body : Body
}.

Definition respond {J} (code : nat) (body : Body) : Js J Answer :=
  Ret {| answer_status := code; answer_body := body |}.

(** A request served by such a route: the value, and the runtime it leaves. *)
Definition serve_answer (w : World) (handler : Js (Task unit) Answer) (d : Db)
    : Completion Answer * Runtime :=
  let '(out, rt, parked) := run start w handler {| db := d; trace := [] |} in
  (out, fold_left (fun rt p => resume w p rt) parked rt).

(** ** Reading one link ([routes/urls.js], lines 72-106) *)

Definition get_url_handler (req : Request) : Js (Task unit) Answer :=
  try_catch
    (found <- Url_findOne (Both (ById (params_id req)) (ByUserId (user_id req))) ;;
     match found with
     | None => respond 404 (BodyMessage false "Short URL not found")
     | Some url => respond 200 (BodyUrl url)
     end)
    (fun error =>
       console_error "Get URL error:" ;;
       respond 500 (BodyMessage false
                      (JsString.or_else (Some (error_message error)) "Error fetching URL"))).

(** ** Storing a click from outside ([routes/clicks.js], lines 109-148) *)

(** [req.body] of the route, its fields read as strings; a field the sender
    left out is [None]. The bodies covered are those whose [urlId] is left out
    or is an ObjectId. *)
Record ClickBody := {
  body_urlId : option ObjectId;
  body_city : option string;
  body_country : option string;
  body_region : option string;
  body_device : option string;
  body_browser : option string;
  body_os : option string;
  body_ip : option string;
  body_referer : option string
}.

(** The document handed to [Click.create]; [urlId] is required by the schema,
    so a body without it fails validation before anything is stored. *)
Definition store_click_handler (body : ClickBody) : Js (Task unit) Answer :=
  try_catch
    (match body_urlId body with
     | None => Throw (Error "Click validation failed: urlId: Path `urlId` is required.")
     | Some urlId =>
         let click :=
           {| Click.urlId := urlId;
              Click.city := JsString.or_else (body_city body) "Unknown";
              Click.country := JsString.or_else (body_country body) "Unknown";
              Click.region := JsString.or_else (body_region body) "Unknown";
              Click.device := JsString.or_else (body_device body) "desktop";
              Click.browser := JsString.or_else (body_browser body) "Unknown";
              Click.os := JsString.or_else (body_os body) "Unknown";
              Click.ip := JsString.or_else (body_ip body) "Unknown";
              Click.referer := JsString.or_else (body_referer body) "Direct" |} in
         Click_create click ;;
         respond 201 (BodyClick click)
     end)
    (fun error =>
       console_error "Store click error:" ;;
       respond 500 (BodyMessage false
                      (JsString.or_else (Some (error_message error)) "Error storing click"))).

(** The document the click route builds from a body that names link [urlId]. *)
Definition click_of_body (urlId : ObjectId) (body : ClickBody) : Click.t :=
  {| Click.urlId := urlId;
     Click.city := JsString.or_else (body_city body) "Unknown";
     Click.country := JsString.or_else (body_country body) "Unknown";
     Click.region := JsString.or_else (body_region body) "Unknown";
     Click.device := JsString.or_else (body_device body) "desktop";
     Click.browser := JsString.or_else (body_browser body) "Unknown";
     Click.os := JsString.or_else (body_os body) "Unknown";
     Click.ip := JsString.or_else (body_ip body) "Unknown";
     Click.referer := JsString.or_else (body_referer body) "Direct" |}.

(** ** Route table of the application (the Express entry point)

    Which handler a GET request reaches, by its path (the part of the URL
    before the query). Each matcher is the regular expression Express 4 builds
    for the registered path: letter case is ignored, one trailing slash is
    allowed, a parameter is one non-empty segment. The first route that
    matches takes the request: Express then decodes the parameter
    ([decodeURIComponent]) and the request enters that route's handlers (the
    [auth] middleware first, where the route has it) and goes to no later
    route; when the parameter cannot be decoded, no handler of a route is
    entered and the error goes to the error-handling middleware of the entry
    point, which answers 500. *)

Module Routing.

(** [^\/?$]: the route path "/". *)
Definition is_root (path : string) : bool :=
  String.eqb path "" || String.eqb path "/".

(** [\/?$]: what may follow the last piece of a route path. *)
Definition route_end (rest : string) : bool :=
  String.eqb rest "" || String.eqb rest "/".

(** The text from the first "/" on. *)
Fixpoint skip_segment (s : string) : string :=
  match s with
  | EmptyString => EmptyString
  | String c rest => if Ascii.eqb c "/" then s else skip_segment rest
  end.

(** [^\/(?:([^\/]+?))\/?$]: a route path made of one parameter; the text the
    parameter matched. *)
Definition one_param (path : string) : option string :=
  match path with
  | String c rest =>
      if Ascii.eqb c "/"
         && JsString.truthy (JsString.split_first "/" rest)
         && route_end (skip_segment rest)
      then Some (JsString.split_first "/" rest)
      else None
  | EmptyString => None
  end.

(** A literal piece at the head of the path, letter case ignored; what is
    left of the path. *)
Fixpoint strip_prefix_i (prefix s : string) : option string :=
  match prefix with
  | EmptyString => Some s
  | String p prefix' =>
      match s with
      | EmptyString => None
      | String c s' =>
          if Ascii.eqb (JsString.toLowerCase_unit c) (JsString.toLowerCase_unit p)
          then strip_prefix_i prefix' s'
          else None
      end
  end.

(** [^<literal>\/?$]: a route path without parameters. *)
Definition match_literal (literal path : string) : bool :=
  match strip_prefix_i literal path with
  | Some rest => route_end rest
  | None => false
  end.

(** [^<prefix>\/?(?=\/|$)]: [app.use(prefix, router)]. The result is the URL
    the router sees: the path without the matched text, "/" put in front when
    it is missing. *)
Definition mount_rest (prefix path : string) : option string :=
  match strip_prefix_i prefix path with
  | None => None
  | Some EmptyString => Some "/"
  | Some (String c rest) =>
      if Ascii.eqb c "/" then
        match rest with
        | EmptyString => Some "/"
        | String c' _ => if Ascii.eqb c' "/" then Some rest else Some (String c rest)
        end
      else None
  end.

(** The GET routes, each with its parameter: [P] is [string] for the text
    the pattern matched and [CodeUnits] for what the handler is given. *)
Inductive Route (P : Type) :=
| AuthMe                   (* GET /api/auth/me *)
| UrlsList                 (* GET /api/urls *)
| UrlsById (id : P)        (* GET /api/urls/:id *)
| ClicksByUrl (urlId : P)  (* GET /api/clicks/:urlId *)
| ApiInfo                  (* GET / *)
| Redirect (shortCode : P) (* GET /:shortCode *)
| Lookup (shortCode : P)   (* GET /api/lookup/:shortCode *)
| Health                   (* GET /api/health *)
| Healthz.                 (* GET /healthz *)
Arguments AuthMe {P}.
Arguments UrlsList {P}.
Arguments UrlsById {P} id.
Arguments ClicksByUrl {P} urlId.
Arguments ApiInfo {P}.
Arguments Redirect {P} shortCode.
Arguments Lookup {P} shortCode.
Arguments Health {P}.
Arguments Healthz {P}.

(** The GET routes of each router, in the order they are registered. *)
Definition auth_get (url : string) : option (Route string) :=
  if match_literal "/me" url then Some AuthMe else None.

Definition urls_get (url : string) : option (Route string) :=
  if is_root url then Some UrlsList else option_map UrlsById (one_param url).

Definition clicks_get (url : string) : option (Route string) :=
  option_map ClicksByUrl (one_param url).

Definition redirect_get (url : string) : option (Route string) :=
  if is_root url then Some ApiInfo
  else
    match one_param url with
    | Some shortCode => Some (Redirect shortCode)
    | None =>
        match strip_prefix_i "/api/lookup" url with
        | Some rest => option_map Lookup (one_param rest)
        | None => None
        end
    end.

(** A mounted router takes the request when one of its routes matches;
    otherwise the request goes on to the next layer. *)
Definition mounted (prefix : string) (router : string -> option (Route string))
    (path : string) : option (Route string) :=
  match mount_rest prefix path with
  | Some url => router url
  | None => None
  end.

(** The first layer with a route that matches. *)
Fixpoint first_match (layers : list (string -> option (Route string))) (path : string)
    : option (Route string) :=
  match layers with
  | [] => None
  | layer :: rest =>
      match layer path with
      | Some route => Some route
      | None => first_match rest path
      end
  end.

(** The layers of the application, in the order of the entry point. *)
Definition app_layers : list (string -> option (Route string)) :=
  [ mounted "/api/auth" auth_get;
    mounted "/api/urls" urls_get;
    mounted "/api/clicks" clicks_get;
    redirect_get;
    (fun path => if match_literal "/api/health" path then Some Health else None);
    (fun path => if match_literal "/healthz" path then Some Healthz else None) ].

(** The route whose pattern takes the path, with the text of its parameter. *)
Definition route_of (path : string) : option (Route string) :=
  first_match app_layers path.

(** *** Decoding of parameters ([decode_param] of [express/lib/router/layer.js])

    A decoded parameter is a JavaScript string in full: a list of UTF-16
    code units, since an escaped character need not be latin-1. *)

Definition CodeUnits := list N.

Definition code_units (s : string) : CodeUnits :=
  map N_of_ascii (list_ascii_of_string s).

Definition hex_value (c : ascii) : option N :=
  let n := N_of_ascii c in
  (if (48 <=? n) && (n <=? 57) then Some (n - 48)
   else if (65 <=? n) && (n <=? 70) then Some (n - 55)
   else if (97 <=? n) && (n <=? 102) then Some (n - 87)
   else None)%N.

Inductive Token :=
| Unit (c : ascii)     (* a code unit that stands for itself *)
| Octet (b : N).       (* an escape %XX *)

(** The escapes of a text; [None] when a percent sign is not followed by two
    hex digits. *)
Fixpoint escapes (s : string) : option (list Token) :=
  match s with
  | EmptyString => Some []
  | String c rest =>
      if Ascii.eqb c "%" then
        match rest with
        | String h1 (String h2 rest2) =>
            match hex_value h1, hex_value h2 with
            | Some a, Some b => option_map (cons (Octet (16 * a + b)%N)) (escapes rest2)
            | _, _ => None
            end
        | _ => None
        end
      else option_map (cons (Unit c)) (escapes rest)
  end.

(** An octet 10xxxxxx. *)
Definition continuation (b : N) : bool := ((128 <=? b) && (b <=? 191))%N.

(** The code point a well-formed UTF-8 sequence of two, three or four octets
    encodes: not over-long, no surrogate, at most U+10FFFF. *)
Definition utf8_code_point (octets : list N) : option N :=
  (match octets with
  | [b0; b1] =>
      let v := (b0 - 192) * 64 + (b1 - 128) in
      if continuation b1 && (128 <=? v) then Some v else None
  | [b0; b1; b2] =>
      let v := (b0 - 224) * 4096 + (b1 - 128) * 64 + (b2 - 128) in
      if continuation b1 && continuation b2 && (2048 <=? v)
         && negb ((55296 <=? v) && (v <=? 57343))
      then Some v else None
  | [b0; b1; b2; b3] =>
      let v := (b0 - 240) * 262144 + (b1 - 128) * 4096 + (b2 - 128) * 64 + (b3 - 128) in
      if continuation b1 && continuation b2 && continuation b3
         && (65536 <=? v) && (v <=? 1114111)
      then Some v else None
  | _ => None
  end)%N.

(** The UTF-16 code units of a code point. *)
Definition utf16 (v : N) : CodeUnits :=
  (if v <? 65536 then [v]
   else [55296 + (v - 65536) / 1024; 56320 + (v - 65536) mod 1024])%N.

(** An octet below 0x80 is its code unit; an octet with two, three or four
    leading one bits starts a sequence of that many escapes; any other octet,
    a sequence cut short and a sequence that is not well-formed UTF-8 are
    errors. *)
Fixpoint decode_tokens (tokens : list Token) : option CodeUnits :=
  match tokens with
  | [] => Some []
  | Unit c :: rest => option_map (cons (N_of_ascii c)) (decode_tokens rest)
  | Octet b :: rest =>
      if (b <? 128)%N then option_map (cons b) (decode_tokens rest)
      else if ((192 <=? b) && (b <? 224))%N then
        match rest with
        | Octet b1 :: rest1 =>
            match utf8_code_point [b; b1] with
            | Some v => option_map (app (utf16 v)) (decode_tokens rest1)
            | None => None
            end
        | _ => None
        end
      else if ((224 <=? b) && (b <? 240))%N then
        match rest with
        | Octet b1 :: Octet b2 :: rest2 =>
            match utf8_code_point [b; b1; b2] with
            | Some v => option_map (app (utf16 v)) (decode_tokens rest2)
            | None => None
            end
        | _ => None
        end
      else if ((240 <=? b) && (b <? 248))%N then
        match rest with
        | Octet b1 :: Octet b2 :: Octet b3 :: rest3 =>
            match utf8_code_point [b; b1; b2; b3] with
            | Some v => option_map (app (utf16 v)) (decode_tokens rest3)
            | None => None
            end
        | _ => None
        end
      else None
  end.

(** [decodeURIComponent(s)]; [None] stands for the URIError. *)
Definition decodeURIComponent (s : string) : option CodeUnits :=
  match escapes s with
  | Some tokens => decode_tokens tokens
  | None => None
  end.

(** The parameter of a matched route, decoded. *)
Definition decode_params (route : Route string) : option (Route CodeUnits) :=
  match route with
  | AuthMe => Some AuthMe
  | UrlsList => Some UrlsList
  | UrlsById id => option_map UrlsById (decodeURIComponent id)
  | ClicksByUrl urlId => option_map ClicksByUrl (decodeURIComponent urlId)
  | ApiInfo => Some ApiInfo
  | Redirect shortCode => option_map Redirect (decodeURIComponent shortCode)
  | Lookup shortCode => option_map Lookup (decodeURIComponent shortCode)
  | Health => Some Health
  | Healthz => Some Healthz
  end.

(** Where a GET request ends up. *)
Inductive Target :=
| Reach (route : Route CodeUnits)  (* the handlers of the route, with its parameter *)
| ErrorMiddleware                  (* the parameter is not decodable: app.use((err, ...)), 500 *)
| NoRoute.                         (* nothing registered matches: Express answers 404 *)

Definition dispatch_get (path : string) : Target :=
  match route_of path with
  | None => NoRoute
  | Some route =>
      match decode_params route with
      | Some decoded => Reach decoded
      | None => ErrorMiddleware
      end
  end.

(** The parameter of a route with the letters lower-cased. *)
Definition lower_route (r : Route string) : Route string :=
  match r with
  | UrlsById id => UrlsById (JsString.toLowerCase id)
  | ClicksByUrl id => ClicksByUrl (JsString.toLowerCase id)
  | Redirect s => Redirect (JsString.toLowerCase s)
  | Lookup s => Lookup (JsString.toLowerCase s)
  | other => other
  end.

End Routing.

(** ** Requests that overlap *)

(** A handler run on a runtime that other requests have worked on already,
    with the chains it leaves behind resumed when it has returned. *)
Definition serve_on (w : World) (handler : Handler) (rt : Runtime) : Runtime :=
  let '(out, rt1, parked) := run start w handler rt in
  fold_left (fun rt p => resume w p rt) parked (report out rt1).

(** The chain waits for a call to settle (not for a reaction that is due). *)
Definition waits_for_call (p : Parked) : bool :=
  match p with
  | AtAwait _ _ => true
  | AtReaction _ => false
  end.

(** Two requests in flight: the first handler runs and returns, and the
    reactions that are due run at once, as microtasks do; while the chains it
    left waiting for a call are still waiting, a second request is served in
    full; then the waiting chains resume. This is the order of events when the
    awaited call, the request to the geolocation provider for one, takes
    longer than the second request. *)
Definition serve_overlapping (w : World) (first second : Handler) (d : Db) : Runtime :=
  let '(out, rt, parked) := run start w first {| db := d; trace := [] |} in
  let due := filter (fun p => negb (waits_for_call p)) parked in
  let waiting := filter waits_for_call parked in
  let rt1 := fold_left (fun rt p => resume w p rt) due (report out rt) in
  fold_left (fun rt p => resume w p rt) waiting (serve_on w second rt1).

(** The store that the owner's delete of link 1 leaves of the sample store. *)
Definition db_after_delete : Db :=
  db (serve world_calm (delete_handler (request_for "abc123")) db_sample).

(** ** Vocabulary of the further properties *)

(** How many responses a trace holds. *)
Definition count_responses (events : list Event) : nat :=
  length (filter is_response events).

(** [ev] is a call other than the query of the link collection. *)
Definition is_other_call (ev : Event) : bool :=
  match ev with
  | Issued (OpUrlFindOne _) => false
  | Issued _ => true
  | _ => false
  end.

(** No code unit of [s] is white space at either end, read off [trim]. *)
Definition trimmed (s : string) : Prop := JsString.trim s = s.

(** Every text field of a click except the address is non-empty. *)
Definition click_labelled (c : Click.t) : Prop :=
  Click.city c <> "" /\ Click.country c <> "" /\ Click.region c <> "" /\
  Click.device c <> "" /\ Click.browser c <> "" /\ Click.os c <> "" /\
  Click.referer c <> "".

(** The world rejects the call. *)
Definition fails (w : World) (op : Op) : bool :=
  match rejects w op with
  | Some _ => true
  | None => false
  end.

(** What [Click.deleteMany({ urlId: id })] leaves. *)
Definition clicks_without (id : ObjectId) (cs : list Click.t) : list Click.t :=
  filter (fun c => negb (Nat.eqb (Click.urlId c) id)) cs.

(** The ids of the links are pairwise distinct. *)
Definition ids_unique (d : Db) : Prop := NoDup (map Url._id (urls d)).

(** A body for the click route that names a link and nothing else. *)
Definition body_bare (id : ObjectId) : ClickBody :=
  {| body_urlId := Some id; body_city := None; body_country := None;
     body_region := None; body_device := None; body_browser := None;
     body_os := None; body_ip := None; body_referer := None |}.

(** The image service is down; everything else works. *)
Definition world_image_down : World :=
  {| rejects := fun op =>
       match op with
       | OpDeleteImage _ => Some (Error "cloudinary unreachable")
       | _ => None
       end;
     provider := fun _ => {| parsed := None |} |}.

(** The link collection accepts reads and the click collection deletes, but
    a link cannot be removed. *)
Definition world_delete_one_fails : World :=
  {| rejects := fun op =>
       match op with
       | OpUrlDeleteOne _ => Some (Error "write conflict")
       | _ => None
       end;
     provider := fun _ => {| parsed := None |} |}.

(** A link with a stored QR image. *)
Definition link_with_qr : Url.t :=
  {| Url._id := 3; Url.userId := 7; Url.title := "Poster";
     Url.originalUrl := "https://example.com/poster";
     Url.shortUrl := "q7w8e9"; Url.customUrl := None;
     Url.qr := "https://img.example.com/qr/3.png"; Url.qrPublicId := "qr_codes/3" |}.

Definition db_with_qr : Db :=
  {| urls := [link_with_qr]; clicks := [click_on 3; click_on 9] |}.

(** A request of user 7 naming link 3. *)
Definition request_delete_3 : Request :=
  {| params_shortCode := "";
     params_id := 3;
     headers := fun _ => None;
     connection_remoteAddress := None;
     socket_remoteAddress := None;
     req_ip := None;
     user_id := 7 |}.

(** A request of user 8 naming link 1, which belongs to user 7. *)
Definition request_read_1_as_8 : Request :=
  {| params_shortCode := "";
     params_id := 1;
     headers := fun _ => None;
     connection_remoteAddress := None;
     socket_remoteAddress := None;
     req_ip := None;
     user_id := 8 |}.
(** * Properties *)

(** ** Strings *)

Section StringFacts.

Import JsString.

Lemma toLowerCase_unit_idem (c : ascii) :
  toLowerCase_unit (toLowerCase_unit c) = toLowerCase_unit c.
Proof. destruct c as [[] [] [] [] [] [] [] []]; reflexivity. Qed.

Lemma toLowerCase_idem (s : string) : toLowerCase (toLowerCase s) = toLowerCase s.
Proof.
  induction s as [|c s IH]; simpl; [reflexivity|].
  now rewrite toLowerCase_unit_idem, IH.
Qed.

Lemma startsWith_cons (a b : ascii) (s p : string) :
  startsWith (String a s) (String b p) = Ascii.eqb a b && startsWith s p.
Proof. reflexivity. Qed.

Lemma truthy_false (s : string) : truthy s = false -> s = "".
Proof.
  unfold truthy. destruct (String.eqb_spec s ""); [auto | discriminate].
Qed.

Lemma truthy_true (s : string) : truthy s = true -> s <> "".
Proof.
  unfold truthy. destruct (String.eqb_spec s ""); [discriminate | auto].
Qed.

(** On a lower-cased text, the case-blind test for lower-case alternatives
    is plain containment. *)
Lemma test_alternatives_lowered (alts : list string) (s : string) :
  Forall (fun t => toLowerCase t = t) alts ->
  test_alternatives_i alts (toLowerCase s) =
  existsb (includes (toLowerCase s)) alts.
Proof.
  intros Hl. unfold test_alternatives_i. rewrite toLowerCase_idem.
  induction Hl as [|t alts Ht _ IH]; simpl; [reflexivity|].
  now rewrite Ht, IH.
Qed.

Lemma existsb_false_all {A} (f : A -> bool) (l : list A) :
  existsb f l = false <-> (forall x, In x l -> f x = false).
Proof.
  induction l as [|a l IH]; simpl.
  - split; [intros _ x [] | reflexivity].
  - rewrite orb_false_iff, IH. split.
    + intros [Ha Hl] x [<-|Hx]; auto.
    + intros H. split; [apply H; now left | intros x Hx; apply H; now right].
Qed.

End StringFacts.

(** ** User-agent classifier *)

Lemma mobile_or_tablet_pattern_lower :
  Forall (fun t => JsString.toLowerCase t = t) mobile_or_tablet_pattern.
Proof. repeat constructor. Qed.

Lemma tablet_pattern_lower :
  Forall (fun t => JsString.toLowerCase t = t) tablet_pattern.
Proof. repeat constructor. Qed.

(** The classifier, with the two regular expressions read as containment in
    the lower-cased user agent. *)
Lemma getDeviceType_unfold (ua : string) :
  getDeviceType ua =
  if negb (JsString.truthy ua) then "desktop"
  else if existsb (JsString.includes (JsString.toLowerCase ua)) mobile_or_tablet_pattern
       then "mobile"
  else if JsString.includes (JsString.toLowerCase ua) "tablet" then "tablet"
  else "desktop".
Proof.
  unfold getDeviceType.
  rewrite (test_alternatives_lowered _ _ mobile_or_tablet_pattern_lower).
  rewrite (test_alternatives_lowered _ _ tablet_pattern_lower).
  destruct (negb (JsString.truthy ua)); [reflexivity|].
  destruct (existsb _ mobile_or_tablet_pattern) eqn:Hm; [reflexivity|].
  unfold tablet_pattern. simpl existsb.
  assert (Hipad : JsString.includes (JsString.toLowerCase ua) "ipad" = false).
  { apply (proj1 (existsb_false_all _ _) Hm). unfold mobile_or_tablet_pattern.
    simpl. tauto. }
  rewrite Hipad. now rewrite !orb_false_r.
Qed.

(** C7, as stated, fails: a user agent that names a tablet without any token
    of the combined pattern is classified "tablet". *)
Lemma getDeviceType_tablet_reachable :
  getDeviceType "Mozilla/5.0 (Windows NT 6.1; Tablet PC 2.0)" = "tablet".
Proof. reflexivity. Qed.

(** C7, amended: every user agent that contains (case ignored) a token of the
    combined mobile-or-tablet pattern, "ipad" included, is classified
    "mobile"; the classifier answers "tablet" exactly for user agents that
    contain "tablet" and no token of the combined pattern; its answer is
    always one of "mobile", "tablet" and "desktop". *)
Theorem getDeviceType_tablet_exactly (ua : string) :
  let text := JsString.toLowerCase ua in
  (forall t, In t mobile_or_tablet_pattern ->
             JsString.includes text t = true -> getDeviceType ua = "mobile")
  /\ (getDeviceType ua = "tablet" <->
      JsString.includes text "tablet" = true /\
      forall t, In t mobile_or_tablet_pattern -> JsString.includes text t = false)
  /\ (getDeviceType ua = "mobile" \/ getDeviceType ua = "tablet" \/
      getDeviceType ua = "desktop").
Proof.
  intros text. subst text. rewrite getDeviceType_unfold.
  destruct (JsString.truthy ua) eqn:Hua; simpl negb; cbv iota.
  - destruct (existsb _ mobile_or_tablet_pattern) eqn:Hm.
    + split; [auto | split; [split | auto]].
      * discriminate.
      * intros [_ Hnone]. apply existsb_false_all in Hnone. congruence.
    + pose proof (proj1 (existsb_false_all _ _) Hm) as Hnone.
      split.
      { intros t Hin Hc. rewrite (Hnone t Hin) in Hc. discriminate. }
      destruct (JsString.includes (JsString.toLowerCase ua) "tablet") eqn:Ht.
      * split; [split; auto | auto].
      * split; [split; [discriminate | intros [Hc _]; discriminate] | auto].
  - apply truthy_false in Hua. subst ua. simpl.
    split; [| split; [split; [discriminate | intros [Hc _]; discriminate] | auto]].
    intros t Hin Hc. unfold mobile_or_tablet_pattern in Hin. simpl in Hin.
    repeat (destruct Hin as [<-|Hin]; [discriminate Hc|]). destruct Hin.
Qed.

Lemma getDeviceType_tablet_exactly_witness :
  getDeviceType "Mozilla/5.0 (iPad; CPU OS 16_0 like Mac OS X)" = "mobile".
Proof.
  apply (getDeviceType_tablet_exactly "Mozilla/5.0 (iPad; CPU OS 16_0 like Mac OS X)")
    with (t := "ipad").
  - unfold mobile_or_tablet_pattern. simpl. tauto.
  - reflexivity.
Defined.

(** The classifier on the user agents of the specification's examples. *)
Example classify_iphone :
  let ua := "Mozilla/5.0 (iPhone; CPU iPhone OS 16_0) Mobile Safari" in
  (getDeviceType ua, getBrowser ua) = ("mobile", "Safari").
Proof. reflexivity. Qed.

Example classify_empty :
  (getDeviceType "", getBrowser "", getOS "") = ("desktop", "Unknown", "Unknown").
Proof. reflexivity. Qed.

Example classify_windows10 :
  getOS "Mozilla/5.0 (Windows NT 10.0; Win64; x64)" = "Windows 10".
Proof. reflexivity. Qed.

Example classify_android :
  let ua := "Mozilla/5.0 (Linux; Android 13) Chrome/120.0 Mobile" in
  (getDeviceType ua, getBrowser ua, getOS ua) = ("mobile", "Chrome", "Android").
Proof. reflexivity. Qed.

(** ** Client identity resolver *)

Example getClientIP_forwarded :
  getClientIP
    {| params_shortCode := "abc123"; params_id := 0;
       headers := fun name =>
         if String.eqb name "x-forwarded-for" then Some "1.2.3.4, 5.6.7.8" else None;
       connection_remoteAddress := Some "10.0.0.1";
       socket_remoteAddress := None; req_ip := None; user_id := 0 |} = "1.2.3.4".
Proof. reflexivity. Qed.

Example getClientIP_nothing_known :
  getClientIP
    {| params_shortCode := "abc123"; params_id := 0; headers := fun _ => None;
       connection_remoteAddress := None; socket_remoteAddress := None;
       req_ip := None; user_id := 0 |} = "Unknown".
Proof. reflexivity. Qed.

(** ** Geolocation resolver *)

Arguments geo_api_url : simpl never.

Lemma emit_extend (ev : Event) (evs : list Event) (rt : Runtime) :
  emit ev (extend evs rt) = extend (evs ++ [ev]) rt.
Proof. unfold emit, extend. simpl. now rewrite app_assoc. Qed.

Lemma emit_as_extend (ev : Event) (rt : Runtime) : emit ev rt = extend [ev] rt.
Proof. reflexivity. Qed.

Section GeolocationRuns.

Variable w : World.
Variable ip : string.
Variable rt : Runtime.

(** The short-circuit: nothing is issued, nothing is logged. *)
Lemma geo_run_local :
  is_local_ip ip = true ->
  run_task w (getGeolocation ip) rt = (Normal geo_local, rt).
Proof.
  intros Hl. unfold run_task, getGeolocation. rewrite Hl. reflexivity.
Qed.

(** [fetch] rejects: the error is caught and logged. *)
Lemma geo_run_network_error (e : JsError) :
  is_local_ip ip = false ->
  rejects w (OpFetch (geo_api_url ip)) = Some e ->
  run_task w (getGeolocation ip) rt =
  (Normal geo_unknown,
   extend [Issued (OpFetch (geo_api_url ip)); Settled (OpFetch (geo_api_url ip)) false;
           Logged "Geolocation error:"] rt).
Proof.
  intros Hl Hr. unfold run_task, getGeolocation. rewrite Hl.
  cbn. unfold settle. rewrite Hr. cbn.
  unfold extend, emit. cbn. now rewrite <- !app_assoc.
Qed.

(** [response.json()] rejects, whether the world makes it so or the body is
    not JSON. *)
Lemma geo_run_malformed :
  is_local_ip ip = false ->
  rejects w (OpFetch (geo_api_url ip)) = None ->
  rejects w (OpResponseJson (provider w (geo_api_url ip))) <> None \/ parsed (provider w (geo_api_url ip)) = None ->
  run_task w (getGeolocation ip) rt =
  (Normal geo_unknown,
   extend [Issued (OpFetch (geo_api_url ip)); Settled (OpFetch (geo_api_url ip)) true;
           Issued (OpResponseJson (provider w (geo_api_url ip))); Settled (OpResponseJson (provider w (geo_api_url ip))) false;
           Logged "Geolocation error:"] rt).
Proof.
  intros Hl Hr Hbad. unfold run_task, getGeolocation. rewrite Hl.
  cbn. unfold settle. rewrite Hr. cbn. unfold settle.
  destruct (rejects w (OpResponseJson (provider w (geo_api_url ip)))) as [e|] eqn:Hj.
  - cbn. unfold extend, emit. cbn. now rewrite <- !app_assoc.
  - destruct Hbad as [Hbad|Hbad]; [congruence|].
    cbn. rewrite Hbad. cbn. unfold extend, emit. cbn. now rewrite <- !app_assoc.
Qed.

(** The body is the JSON value [null]: reading [data.status] raises. *)
Lemma geo_run_null :
  is_local_ip ip = false ->
  rejects w (OpFetch (geo_api_url ip)) = None ->
  rejects w (OpResponseJson (provider w (geo_api_url ip))) = None ->
  parsed (provider w (geo_api_url ip)) = Some JNull ->
  run_task w (getGeolocation ip) rt =
  (Normal geo_unknown,
   extend [Issued (OpFetch (geo_api_url ip)); Settled (OpFetch (geo_api_url ip)) true;
           Issued (OpResponseJson (provider w (geo_api_url ip))); Settled (OpResponseJson (provider w (geo_api_url ip))) true;
           Logged "Geolocation error:"] rt).
Proof.
  intros Hl Hr Hj Hp. unfold run_task, getGeolocation. rewrite Hl.
  cbn. unfold settle. rewrite Hr. cbn. unfold settle. rewrite Hj. cbn.
  rewrite Hp. cbn. unfold extend, emit. cbn. now rewrite <- !app_assoc.
Qed.

(** The body is a JSON object. *)
Lemma geo_run_object (fields : list (string * string)) :
  is_local_ip ip = false ->
  rejects w (OpFetch (geo_api_url ip)) = None ->
  rejects w (OpResponseJson (provider w (geo_api_url ip))) = None ->
  parsed (provider w (geo_api_url ip)) = Some (JObject fields) ->
  run_task w (getGeolocation ip) rt =
  (Normal
     (if status_success fields
      then {| city := JsString.or_else (lookup_field "city" fields) "Unknown";
              country := JsString.or_else (lookup_field "country" fields) "Unknown";
              region := JsString.or_else (lookup_field "regionName" fields) "Unknown" |}
      else geo_unknown),
   extend [Issued (OpFetch (geo_api_url ip)); Settled (OpFetch (geo_api_url ip)) true;
           Issued (OpResponseJson (provider w (geo_api_url ip))); Settled (OpResponseJson (provider w (geo_api_url ip))) true] rt).
Proof.
  intros Hl Hr Hj Hp. unfold run_task, getGeolocation. rewrite Hl.
  cbn. unfold settle. rewrite Hr. cbn. unfold settle. rewrite Hj. cbn.
  rewrite Hp. cbn. unfold status_success.
  destruct (JsString.strict_eq (lookup_field "status" fields) "success");
    cbn; unfold extend, emit; cbn; now rewrite <- !app_assoc.
Qed.

(** Whatever the world does, a lookup that is attempted ends normally with
    the location of that world, starts by sending the request, and leaves the
    store alone. *)
Lemma geo_run_lookup :
  is_local_ip ip = false ->
  exists evs,
    run_task w (getGeolocation ip) rt =
    (Normal (located w ip), extend (Issued (OpFetch (geo_api_url ip)) :: evs) rt) /\
    forallb is_lookup_event evs = true.
Proof.
  intros Hl. unfold located, lookup_outcome. rewrite Hl.
  destruct (rejects w (OpFetch (geo_api_url ip))) as [e|] eqn:Hr.
  { eexists. split; [apply (geo_run_network_error e Hl Hr) | reflexivity]. }
  destruct (rejects w (OpResponseJson (provider w (geo_api_url ip)))) as [e|] eqn:Hj.
  { eexists. split; [apply (geo_run_malformed Hl Hr) | reflexivity].
    left. congruence. }
  destruct (parsed (provider w (geo_api_url ip))) as [[|fields]|] eqn:Hp.
  - eexists. split; [apply (geo_run_null Hl Hr Hj Hp) | reflexivity].
  - eexists. split; [apply (geo_run_object fields Hl Hr Hj Hp) | reflexivity].
  - eexists. split; [apply (geo_run_malformed Hl Hr) | reflexivity].
    now right.
Qed.

(** In every world the resolver ends normally, with the location of that
    world, and leaves the store alone. *)
Lemma geo_run_located :
  exists evs,
    run_task w (getGeolocation ip) rt = (Normal (located w ip), extend evs rt) /\
    forallb is_lookup_event evs = true.
Proof.
  destruct (is_local_ip ip) eqn:Hl.
  - exists []. rewrite (geo_run_local Hl). unfold located, extend. rewrite Hl.
    simpl. rewrite app_nil_r. destruct rt. auto.
  - destruct (geo_run_lookup Hl) as (evs & Hrun & Hevs).
    exists (Issued (OpFetch (geo_api_url ip)) :: evs). auto.
Qed.

End GeolocationRuns.

Lemma or_else_unknown_local (v : option string) :
  JsString.or_else v "Unknown" = "Local" -> v = Some "Local".
Proof.
  destruct v as [s|]; simpl; [|discriminate].
  destruct (JsString.truthy s); [congruence | discriminate].
Qed.

Lemma is_local_ip_iff (ip : string) :
  is_local_ip ip = true <->
  ip = "127.0.0.1" \/ ip = "::1" \/ ip = "localhost" \/
  JsString.startsWith ip "192.168." = true \/ JsString.startsWith ip "10." = true.
Proof.
  unfold is_local_ip. rewrite !orb_true_iff, !String.eqb_eq. tauto.
Qed.

(** C4: the resolver always completes normally, for every address and every
    behaviour of the provider. When the lookup is attempted and fails (the
    request is rejected, the body is not usable JSON, or the provider's status
    is not "success") the result is the Unknown triple; when the provider
    reports success each of city, country and region is the provider's field,
    or "Unknown" where the field is missing. *)
Theorem getGeolocation_never_raises (w : World) (ip : string) (rt : Runtime) :
  exists g rt',
    run_task w (getGeolocation ip) rt = (Normal g, rt') /\
    (is_local_ip ip = false ->
     match lookup_outcome w ip with
     | NetworkError | MalformedResponse => g = geo_unknown
     | Answered fields =>
         if status_success fields
         then city g = JsString.or_else (lookup_field "city" fields) "Unknown" /\
              country g = JsString.or_else (lookup_field "country" fields) "Unknown" /\
              region g = JsString.or_else (lookup_field "regionName" fields) "Unknown" /\
              (lookup_field "city" fields = None -> city g = "Unknown") /\
              (lookup_field "country" fields = None -> country g = "Unknown") /\
              (lookup_field "regionName" fields = None -> region g = "Unknown")
         else g = geo_unknown
     end).
Proof.
  destruct (geo_run_located w ip rt) as (evs & Hrun & _).
  exists (located w ip), (extend evs rt). split; [exact Hrun|].
  intros Hl. unfold located. rewrite Hl.
  destruct (lookup_outcome w ip) as [| |fields]; try reflexivity.
  destruct (status_success fields); [|reflexivity].
  simpl. repeat split; intros ->; reflexivity.
Qed.

(** Instance of C4: the provider is unreachable for a public address. *)
Lemma getGeolocation_never_raises_witness :
  exists g rt',
    run_task world_offline (getGeolocation "8.8.8.8") runtime_idle = (Normal g, rt') /\
    g = geo_unknown.
Proof.
  destruct (getGeolocation_never_raises world_offline "8.8.8.8" runtime_idle)
    as (g & rt' & Hrun & Hcase).
  exists g, rt'. split; [exact Hrun | exact (Hcase eq_refl)].
Defined.

(** C5: for the loopback literals, "localhost" and the prefixes "192.168." and
    "10.", the resolver returns the Local triple and records no event at all:
    no outbound request is sent. *)
Theorem getGeolocation_local_short_circuit (w : World) (ip : string) (rt : Runtime) :
  ip = "127.0.0.1" \/ ip = "::1" \/ ip = "localhost" \/
  JsString.startsWith ip "192.168." = true \/ JsString.startsWith ip "10." = true ->
  run_task w (getGeolocation ip) rt = (Normal geo_local, rt) /\
  existsb is_fetch (trace (snd (run_task w (getGeolocation ip) runtime_idle))) = false.
Proof.
  intros Hip. apply is_local_ip_iff in Hip.
  rewrite !geo_run_local by exact Hip. split; reflexivity.
Qed.

Lemma getGeolocation_local_short_circuit_witness :
  run_task world_calm (getGeolocation "127.0.0.1") runtime_idle =
  (Normal geo_local, runtime_idle) /\
  existsb is_fetch
    (trace (snd (run_task world_calm (getGeolocation "127.0.0.1") runtime_idle))) = false.
Proof.
  apply (getGeolocation_local_short_circuit world_calm "127.0.0.1" runtime_idle).
  left. reflexivity.
Defined.

Lemma prefix_172_16_not_local (ip : string) :
  JsString.startsWith ip "172.16." = true -> is_local_ip ip = false.
Proof.
  intros H. destruct ip as [|c1 [|c2 rest]].
  - discriminate H.
  - rewrite startsWith_cons in H. simpl (JsString.startsWith "" _) in H.
    rewrite andb_false_r in H. discriminate H.
  - rewrite !startsWith_cons in H.
    apply andb_true_iff in H as [H1 H]. apply andb_true_iff in H as [H2 _].
    apply Ascii.eqb_eq in H1, H2. subst c1 c2. reflexivity.
Qed.

(** C10: the short-circuit is taken exactly for the three literals and the two
    prefixes. For every other address, those starting with "172.16." among
    them, the resolver sends the request to the provider and answers from the
    provider's reply: its result is the Local triple only if the provider's own
    reply carries "Local" in all three fields. *)
Theorem getGeolocation_short_circuit_exact (w : World) (ip : string) (rt : Runtime) :
  (is_local_ip ip = true <->
   ip = "127.0.0.1" \/ ip = "::1" \/ ip = "localhost" \/
   JsString.startsWith ip "192.168." = true \/ JsString.startsWith ip "10." = true)
  /\ (is_local_ip ip = false ->
      exists g evs,
        run_task w (getGeolocation ip) rt =
        (Normal g, extend (Issued (OpFetch (geo_api_url ip)) :: evs) rt) /\
        (g = geo_local ->
         exists fields,
           lookup_outcome w ip = Answered fields /\
           status_success fields = true /\
           lookup_field "city" fields = Some "Local" /\
           lookup_field "country" fields = Some "Local" /\
           lookup_field "regionName" fields = Some "Local"))
  /\ (JsString.startsWith ip "172.16." = true -> is_local_ip ip = false).
Proof.
  split; [apply is_local_ip_iff|]. split; [|apply prefix_172_16_not_local].
  intros Hl. destruct (geo_run_lookup w ip rt Hl) as (evs & Hrun & _).
  exists (located w ip), evs. split; [exact Hrun|].
  unfold located. rewrite Hl. intros Hg.
  destruct (lookup_outcome w ip) as [| |fields]; try discriminate Hg.
  exists fields. split; [reflexivity|].
  destruct (status_success fields); [|discriminate Hg].
  split; [reflexivity|].
  injection Hg as Hc Hn Hr.
  auto using or_else_unknown_local.
Qed.

(** Instance of C10: a 172.16 address with the provider unreachable. *)
Lemma getGeolocation_short_circuit_exact_witness :
  is_local_ip "172.16.0.1" = false /\
  exists g evs,
    run_task world_offline (getGeolocation "172.16.0.1") runtime_idle =
    (Normal g, extend (Issued (OpFetch (geo_api_url "172.16.0.1")) :: evs) runtime_idle).
Proof.
  destruct (getGeolocation_short_circuit_exact world_offline "172.16.0.1" runtime_idle)
    as (_ & Hlookup & H172).
  split; [exact (H172 eq_refl)|].
  destruct (Hlookup (H172 eq_refl)) as (g & evs & Hrun & _).
  exists g, evs. exact Hrun.
Defined.

(** ** Runs of asynchronous programs *)

Section Runs.

Variable w : World.

(** A settled call appends to the trace and looks at nothing but the store. *)
Lemma settle_appends (op : Op) (d : Db) :
  exists r d' ok,
    forall t, settle w op {| db := d; trace := t |} =
              (r, {| db := d'; trace := t ++ [Settled op ok] |}).
Proof.
  unfold settle. simpl.
  destruct (rejects w op) as [e|].
  - exists (Thrown e), d, false. reflexivity.
  - destruct (perform w op d) as [r d'].
    exists r, d', (match r with Normal _ => true | Thrown _ => false end).
    reflexivity.
Qed.

(** So does a whole chain. *)
Lemma run_task_appends {A} (p : Task A) :
  forall d, exists r d' evs,
    forall t, run_task w p {| db := d; trace := t |} =
              (r, {| db := d'; trace := t ++ evs |}).
Proof.
  unfold run_task.
  induction p as [a|e|ev k IH|op k IH|k IH|job k IH]; intros d.
  - exists (Normal a), d, []. intros t. simpl. now rewrite app_nil_r.
  - exists (Thrown e), d, []. intros t. simpl. now rewrite app_nil_r.
  - destruct (IH d) as (r & d' & evs & H).
    exists r, d', (ev :: evs). intros t. simpl. unfold emit. simpl.
    rewrite H. now rewrite <- app_assoc.
  - destruct (settle_appends op d) as (r1 & d1 & ok & Hs).
    destruct (IH r1 d1) as (r & d' & evs & H).
    exists r, d', (Issued op :: Settled op ok :: evs). intros t. simpl.
    unfold emit. simpl. rewrite Hs, H. now rewrite <- !app_assoc.
  - destruct (IH d) as (r & d' & evs & H).
    exists r, d', evs. intros t. simpl. apply H.
  - destruct job.
Qed.

(** Sequencing: the first part runs, then the second on what it left. *)
Lemma run_task_bind {A B} (p : Task A) (f : A -> Task B) (rt : Runtime) :
  run_task w (bind p f) rt =
  match run_task w p rt with
  | (Normal a, rt1) => run_task w (f a) rt1
  | (Thrown e, rt1) => (Thrown e, rt1)
  end.
Proof.
  unfold run_task. revert rt.
  induction p as [a|e|ev k IH|op k IH|k IH|job k IH]; intros rt; simpl.
  - destruct (run no_launch w (f a) rt) as [[r rt1] ps]. reflexivity.
  - reflexivity.
  - apply IH.
  - destruct (settle w op (emit (Issued op) rt)) as [r rt1]. apply IH.
  - apply IH.
  - destruct job.
Qed.

Lemma run_task_await {A} (op : Op) (k : Completion Value -> Task A) (rt : Runtime) :
  run_task w (Await op k) rt =
  let '(r, rt1) := settle w op (emit (Issued op) rt) in run_task w (k r) rt1.
Proof.
  unfold run_task. simpl. destruct (settle w op (emit (Issued op) rt)). reflexivity.
Qed.

(** Scheduling. A chain that is started either finishes on the spot, or
    parks; resumed later, after other events [mid] have happened, it has the
    effect on the store and produces the events of the same chain run in one
    go, with [mid] sitting right after the events of its synchronous start. *)
Lemma start_then_resume (job : Task unit) (d : Db) :
  forall pre,
    exists early later out d',
      run_task w job {| db := d; trace := pre |} =
        (out, {| db := d'; trace := pre ++ early ++ later |}) /\
      (start job {| db := d; trace := pre |} =
         ([], report out {| db := d'; trace := pre ++ early ++ later |})
       \/
       exists p,
         start job {| db := d; trace := pre |} =
           ([p], {| db := d; trace := pre ++ early |}) /\
         forall mid,
           resume w p {| db := d; trace := (pre ++ early) ++ mid |} =
           report out {| db := d'; trace := (pre ++ early) ++ mid ++ later |}).
Proof.
  induction job as [a|e|ev k IH|op k IH|k IH|j k IH]; intros pre.
  - exists [], [], (Normal a), d. simpl. rewrite !app_nil_r. auto.
  - exists [], [], (Thrown e), d. simpl. rewrite !app_nil_r. auto.
  - destruct (IH (pre ++ [ev])) as (early & later & out & d' & Hrun & Hstart).
    exists (ev :: early), later, out, d'.
    replace (pre ++ (ev :: early) ++ later) with ((pre ++ [ev]) ++ early ++ later)
      by (now rewrite <- app_assoc).
    replace (pre ++ ev :: early) with ((pre ++ [ev]) ++ early)
      by (now rewrite <- app_assoc).
    split; [exact Hrun|]. exact Hstart.
  - destruct (settle_appends op d) as (r1 & d1 & ok & Hs).
    destruct (run_task_appends (k r1) d1) as (out & d' & evs & Hk).
    exists [Issued op], (Settled op ok :: evs), out, d'. split.
    + rewrite run_task_await. unfold emit. simpl db. simpl trace.
      rewrite Hs, Hk. f_equal. f_equal. now rewrite <- !app_assoc.
    + right. exists (AtAwait op k). split; [reflexivity|].
      intros mid. simpl. rewrite Hs, Hk. f_equal. f_equal.
      now rewrite <- !app_assoc.
  - destruct (run_task_appends k d) as (out & d' & evs & Hk).
    exists [], evs, out, d'. split.
    + exact (Hk pre).
    + right. exists (AtReaction k). split.
      * simpl. now rewrite app_nil_r.
      * intros mid. simpl. rewrite Hk. f_equal. f_equal.
        now rewrite app_nil_r, <- !app_assoc.
  - destruct j.
Qed.

End Runs.

(** ** The chain the redirect route leaves behind *)

Section RedirectRuns.

Variable w : World.
Variable req : Request.

Lemma save_click_run (c : Click.t) (rt : Runtime) :
  run_task w (Reaction (save_click c)) rt =
  (Normal tt,
   {| db := save_click_db w c (db rt); trace := trace rt ++ save_click_events w c |}).
Proof.
  unfold run_task, save_click, save_click_db, save_click_events.
  cbn. unfold settle. destruct (rejects w (OpClickCreate c)) as [e|];
    cbn; unfold emit; cbn; now rewrite <- !app_assoc.
Qed.

(** The unawaited chain run in one go: the lookup events, then the insert. *)
Lemma locate_and_save_run (u : Url.t) (d : Db) (pre : list Event) :
  exists rest,
    forallb is_lookup_event rest = true /\
    run_task w (locate_and_save req u) {| db := d; trace := pre |} =
    (Normal tt,
     {| db := save_click_db w (click_of req u (located w (getClientIP req))) d;
        trace := pre ++ lookup_started req ++ rest ++
                 save_click_events w (click_of req u (located w (getClientIP req))) |}).
Proof.
  unfold locate_and_save, lookup_started. rewrite run_task_bind.
  destruct (is_local_ip (getClientIP req)) eqn:Hl.
  - exists []. rewrite (geo_run_local _ _ _ Hl), save_click_run.
    unfold located. rewrite Hl. simpl. auto.
  - destruct (geo_run_lookup w (getClientIP req) {| db := d; trace := pre |} Hl)
      as (evs & Hrun & Hevs).
    exists evs. rewrite Hrun, save_click_run. simpl.
    split; [exact Hevs|]. now rewrite <- !app_assoc.
Qed.

(** Its synchronous start: it parks, having at most sent the request. *)
Lemma locate_and_save_start (u : Url.t) (d : Db) (pre : list Event) :
  exists p,
    start (locate_and_save req u) {| db := d; trace := pre |} =
    ([p], {| db := d; trace := pre ++ lookup_started req |}).
Proof.
  unfold locate_and_save, lookup_started, getGeolocation.
  destruct (is_local_ip (getClientIP req)); cbn.
  - eexists. now rewrite app_nil_r.
  - eexists. reflexivity.
Qed.

(** Started before the response, resumed after it. *)
Lemma locate_and_save_resumed (u : Url.t) (d : Db) (pre mid : list Event) :
  exists rest,
    forallb is_lookup_event rest = true /\
    fold_left (fun rt p => resume w p rt)
      (fst (start (locate_and_save req u) {| db := d; trace := pre |}))
      {| db := d; trace := (pre ++ lookup_started req) ++ mid |} =
    {| db := save_click_db w (click_of req u (located w (getClientIP req))) d;
       trace := (pre ++ lookup_started req) ++ mid ++ rest ++
                save_click_events w (click_of req u (located w (getClientIP req))) |}.
Proof.
  destruct (locate_and_save_run u d pre) as (rest & Hrest & Hrun).
  destruct (locate_and_save_start u d pre) as (p & Hp).
  destruct (start_then_resume w (locate_and_save req u) d pre)
    as (early & later & out & d' & Hrun' & [Hdone | (p' & Hp' & Hres)]).
  { rewrite Hp in Hdone. discriminate Hdone. }
  rewrite Hp in Hp'. injection Hp' as <- Hearly.
  apply app_inv_head in Hearly. subst early.
  rewrite Hrun in Hrun'. injection Hrun' as <- <- Hlater.
  apply app_inv_head in Hlater. apply app_inv_head in Hlater. subst later.
  exists rest. split; [exact Hrest|].
  rewrite Hp. simpl fst. simpl fold_left. rewrite Hres. reflexivity.
Qed.

End RedirectRuns.

Section RedirectServe.

Variable w : World.
Variable req : Request.
Variable d : Db.

(** The reserved segment: answered at once, the store is not asked. *)
Lemma redirect_serve_api :
  params_shortCode req = "api" ->
  serve w (redirect_handler req) d =
  {| db := d;
     trace := [Responded {| status := 404; location := None;
                            payload := JsonMessage false "Not found" |}] |}.
Proof.
  intros Hs. unfold serve, redirect_handler. rewrite Hs. reflexivity.
Qed.

(** The query rejects: a 500, nothing else. *)
Lemma redirect_serve_store_error (e : JsError) :
  params_shortCode req <> "api" ->
  rejects w (OpUrlFindOne (short_or_custom (params_shortCode req))) = Some e ->
  serve w (redirect_handler req) d =
  {| db := d;
     trace := [Issued (OpUrlFindOne (short_or_custom (params_shortCode req)));
               Settled (OpUrlFindOne (short_or_custom (params_shortCode req))) false;
               Logged "Redirect error:";
               Responded {| status := 500; location := None;
                            payload := Text "Error processing redirect" |}] |}.
Proof.
  intros Hs Hr. apply String.eqb_neq in Hs.
  unfold serve, redirect_handler. rewrite Hs.
  cbn. unfold settle. rewrite Hr. reflexivity.
Qed.

(** No document satisfies the query: the 404 page, nothing else. *)
Lemma redirect_serve_miss :
  params_shortCode req <> "api" ->
  rejects w (OpUrlFindOne (short_or_custom (params_shortCode req))) = None ->
  find (satisfies (short_or_custom (params_shortCode req))) (urls d) = None ->
  serve w (redirect_handler req) d =
  {| db := d;
     trace := resolved_events (params_shortCode req) ++
              [Responded {| status := 404; location := None;
                            payload := NotFoundPage |}] |}.
Proof.
  intros Hs Hr Hf. apply String.eqb_neq in Hs.
  unfold serve, redirect_handler. rewrite Hs.
  cbn. unfold settle. rewrite Hr. cbn -[satisfies short_or_custom].
  rewrite Hf. reflexivity.
Qed.

(** A link is found: the chain starts, the 302 is written, the chain ends. *)
Lemma redirect_serve_hit (u : Url.t) :
  params_shortCode req <> "api" ->
  rejects w (OpUrlFindOne (short_or_custom (params_shortCode req))) = None ->
  find (satisfies (short_or_custom (params_shortCode req))) (urls d) = Some u ->
  exists rest,
    forallb is_lookup_event rest = true /\
    serve w (redirect_handler req) d =
    {| db := save_click_db w (click_of req u (located w (getClientIP req))) d;
       trace := (resolved_events (params_shortCode req) ++ lookup_started req) ++
                [Responded (reply_redirect req u)] ++ rest ++
                save_click_events w (click_of req u (located w (getClientIP req))) |}.
Proof.
  intros Hs Hr Hf. apply String.eqb_neq in Hs.
  destruct (locate_and_save_resumed w req u d
              (resolved_events (params_shortCode req))
              [Responded (reply_redirect req u)])
    as (rest & Hrest & Hres).
  exists rest. split; [exact Hrest|].
  rewrite <- Hres. clear Hres.
  destruct (locate_and_save_start req u d (resolved_events (params_shortCode req)))
    as (p & Hp).
  rewrite Hp. simpl fst.
  unfold serve, redirect_handler. rewrite Hs.
  cbn -[getGeolocation start]. unfold settle. rewrite Hr.
  cbn -[getGeolocation start satisfies short_or_custom]. rewrite Hf.
  cbn -[getGeolocation start].
  change (start _ _) with
    (start (locate_and_save req u)
       {| db := d; trace := resolved_events (params_shortCode req) |}).
  rewrite Hp. reflexivity.
Qed.

End RedirectServe.

(** ** Short-code resolver *)

Lemma satisfies_short_or_custom (segment : string) (u : Url.t) :
  satisfies (short_or_custom segment) u = true <-> matches_segment segment u.
Proof.
  unfold matches_segment. simpl. rewrite orb_true_iff, String.eqb_eq.
  destruct (Url.customUrl u) as [alias|].
  - rewrite String.eqb_eq. split; intros [H|H]; auto.
    + right. now subst.
    + right. now injection H.
  - split; intros [H|H]; auto; discriminate.
Qed.

Lemma resolve_sound (docs : list Url.t) (segment : string) (u : Url.t) :
  resolve docs segment = Some u -> In u docs /\ matches_segment segment u.
Proof.
  intros H. apply find_some in H as [Hin Hs].
  split; [exact Hin | now apply satisfies_short_or_custom].
Qed.

Lemma resolve_complete (docs : list Url.t) (segment : string) (u : Url.t) :
  In u docs -> matches_segment segment u -> exists u', resolve docs segment = Some u'.
Proof.
  intros Hin Hm. unfold resolve.
  destruct (find (satisfies (short_or_custom segment)) docs) as [u'|] eqn:Hf.
  - now exists u'.
  - apply satisfies_short_or_custom in Hm.
    rewrite (find_none _ _ Hf u Hin) in Hm. discriminate.
Qed.

Lemma resolve_unambiguous (docs : list Url.t) (segment : string) (u : Url.t) :
  lookup_unambiguous docs ->
  In u docs -> matches_segment segment u -> resolve docs segment = Some u.
Proof.
  intros Huniq Hin Hm.
  destruct (resolve_complete docs segment u Hin Hm) as (u' & Hr).
  destruct (resolve_sound _ _ _ Hr) as [Hin' Hm'].
  now rewrite (Huniq segment u u' Hin Hin' Hm Hm').
Qed.

Lemma resolve_none (docs : list Url.t) (segment : string) :
  (forall u, In u docs -> ~ matches_segment segment u) -> resolve docs segment = None.
Proof.
  intros Hno. destruct (resolve docs segment) as [u|] eqn:Hr; [|reflexivity].
  destruct (resolve_sound _ _ _ Hr) as [Hin Hm]. now destruct (Hno u Hin).
Qed.

(** ** Redirect route *)

Lemma response_of_first (pre post : list Event) (r : Reply) :
  forallb (fun ev => negb (is_response ev)) pre = true ->
  response_of (pre ++ Responded r :: post) = Some r.
Proof.
  induction pre as [|ev pre IH]; simpl; [reflexivity|].
  intros H. apply andb_true_iff in H as [Hev Hpre].
  destruct ev; try discriminate Hev; now apply IH.
Qed.

Lemma response_of_quiet_prefix (pre post : list Event) :
  forallb (fun ev => negb (is_response ev)) pre = true ->
  response_of (pre ++ post) = response_of post.
Proof.
  induction pre as [|ev pre IH]; simpl; [reflexivity|].
  intros H. apply andb_true_iff in H as [Hev Hpre].
  destruct ev; try discriminate Hev; now apply IH.
Qed.

Lemma before_redirect_quiet (req : Request) :
  forallb (fun ev => negb (is_response ev))
    (resolved_events (params_shortCode req) ++ lookup_started req) = true.
Proof.
  unfold lookup_started. destruct (is_local_ip (getClientIP req)); reflexivity.
Qed.

Lemma db_sample_unambiguous : lookup_unambiguous (urls db_sample).
Proof.
  intros segment u1 u2 H1 H2 M1 M2. simpl in H1, H2. unfold matches_segment in *.
  destruct H1 as [<-|[<-|[]]]; destruct H2 as [<-|[<-|[]]]; try reflexivity;
    simpl in M1, M2; destruct M1 as [M1|M1]; destruct M2 as [M2|M2];
    congruence.
Qed.

(** C1, as stated, fails: a stored link whose alias is "api" is not reached by
    a request for the segment "api", which the reserved-path guard answers
    with a 404 before the store is asked. *)
Lemma redirect_alias_api_refused :
  In link_alias_api (urls db_sample) /\
  Url.customUrl link_alias_api = Some (params_shortCode (request_for "api")) /\
  response_of (trace (serve world_calm (redirect_handler (request_for "api")) db_sample)) =
  Some {| status := 404; location := None; payload := JsonMessage false "Not found" |}.
Proof. repeat split. right. now left. Qed.

(** [encodeUrl] leaves well-escaped text as it is. *)
Lemma encodeUrl_well_escaped (s : string) :
  well_escaped s = true -> encodeUrl s = s.
Proof.
  induction s as [|c rest IH]; [reflexivity|].
  cbn [well_escaped]. intros H.
  apply andb_true_iff in H as [H Hrest]. apply andb_true_iff in H as [Hc Hesc].
  specialize (IH Hrest). cbn [encodeUrl].
  destruct (Ascii.eqb c "%").
  - destruct rest as [|h1 [|h2 rest2]]; try discriminate Hesc.
    apply andb_true_iff in Hesc as [-> ->]. now rewrite IH.
  - now rewrite Hc, IH.
Qed.

(** C1, amended: in a store where a segment resolves to at most one link and
    which answers the query, a GET whose path segment is not the reserved
    segment "api" and equals a stored link's short code or custom alias is
    answered with a 302 whose Location is what [res.redirect] makes of that
    link's [originalUrl]: its [encodeUrl], which is the stored text itself
    when that is well escaped, and, for the stored text "back", the
    [encodeUrl] of the request's referrer, "/" when it has none. *)
Theorem redirect_known_code (w : World) (req : Request) (d : Db) (u : Url.t) :
  In u (urls d) ->
  lookup_unambiguous (urls d) ->
  matches_segment (params_shortCode req) u ->
  params_shortCode req <> "api" ->
  store_answers w (params_shortCode req) ->
  exists target,
    response_of (trace (serve w (redirect_handler req) d)) =
      Some {| status := 302; location := Some target; payload := RedirectNotice |} /\
    (Url.originalUrl u <> "back" -> target = encodeUrl (Url.originalUrl u)) /\
    (Url.originalUrl u <> "back" -> well_escaped (Url.originalUrl u) = true ->
     target = Url.originalUrl u) /\
    (Url.originalUrl u = "back" ->
     target = encodeUrl (JsString.or_else (req_get_referrer req) "/")).
Proof.
  intros Hin Huniq Hm Hs Hw.
  pose proof (resolve_unambiguous _ _ _ Huniq Hin Hm) as Hr.
  destruct (redirect_serve_hit w req d u Hs Hw Hr) as (rest & _ & Hrun).
  exists (res_location req (Url.originalUrl u)). split.
  { rewrite Hrun. simpl trace.
    apply (response_of_first _ _ (reply_redirect req u)), before_redirect_quiet. }
  unfold res_location.
  destruct (String.eqb_spec (Url.originalUrl u) "back") as [Hb|Hb].
  - split; [contradiction|]. split; [contradiction|]. reflexivity.
  - split; [reflexivity|]. split; [|contradiction].
    intros _ Hesc. now apply encodeUrl_well_escaped.
Qed.

Lemma redirect_known_code_witness :
  exists target,
    response_of (trace (serve world_calm (redirect_handler (request_for "mysite")) db_sample)) =
      Some {| status := 302; location := Some target; payload := RedirectNotice |} /\
    target = "https://example.com/landing".
Proof.
  destruct (redirect_known_code world_calm (request_for "mysite") db_sample link_abc123)
    as (target & Hresp & _ & Hplain & _).
  - now left.
  - exact db_sample_unambiguous.
  - right. reflexivity.
  - discriminate.
  - reflexivity.
  - exists target. split; [exact Hresp|]. apply Hplain; [discriminate | reflexivity].
Defined.

(** C2: when the path segment equals no stored short code and no stored
    alias, the redirect route leaves the store as it was and never calls
    [Click.create], and, the store answering the query, responds 404. *)
Theorem redirect_unknown_code (w : World) (req : Request) (d : Db) :
  (forall u, In u (urls d) -> ~ matches_segment (params_shortCode req) u) ->
  db (serve w (redirect_handler req) d) = d /\
  existsb is_click_create (trace (serve w (redirect_handler req) d)) = false /\
  (store_answers w (params_shortCode req) ->
   exists r, response_of (trace (serve w (redirect_handler req) d)) = Some r /\
             status r = 404).
Proof.
  intros Hno.
  destruct (String.eqb_spec (params_shortCode req) "api") as [Hs|Hs].
  { rewrite (redirect_serve_api w req d Hs). simpl. eauto. }
  destruct (rejects w (OpUrlFindOne (short_or_custom (params_shortCode req))))
    as [e|] eqn:Hw.
  - rewrite (redirect_serve_store_error w req d e Hs Hw). simpl.
    split; [reflexivity|]. split; [reflexivity|].
    unfold store_answers. congruence.
  - rewrite (redirect_serve_miss w req d Hs Hw (resolve_none _ _ Hno)).
    simpl. eauto.
Qed.

Lemma redirect_unknown_code_witness :
  db (serve world_calm (redirect_handler (request_for "nosuch")) db_sample) = db_sample /\
  existsb is_click_create
    (trace (serve world_calm (redirect_handler (request_for "nosuch")) db_sample)) = false /\
  exists r,
    response_of (trace (serve world_calm (redirect_handler (request_for "nosuch")) db_sample))
    = Some r /\ status r = 404.
Proof.
  destruct (redirect_unknown_code world_calm (request_for "nosuch") db_sample)
    as (Hdb & Hclick & Hstatus).
  - intros u [<-|[<-|[]]] [M|M]; discriminate M.
  - split; [exact Hdb|]. split; [exact Hclick|]. apply Hstatus. reflexivity.
Defined.

Lemma existsb_excluded {A} (p q : A -> bool) (l : list A) :
  (forall x, p x = true -> q x = false) ->
  forallb p l = true -> existsb q l = false.
Proof.
  intros Hpq. induction l as [|x l IH]; simpl; [reflexivity|].
  intros H. apply andb_true_iff in H as [Hx Hl].
  now rewrite (Hpq x Hx), (IH Hl).
Qed.

Lemma save_click_events_quiet (w : World) (c : Click.t) :
  existsb is_response (save_click_events w c) = false /\
  existsb is_rejection (save_click_events w c) = false /\
  In (Issued (OpClickCreate c)) (save_click_events w c).
Proof.
  unfold save_click_events. destruct (rejects w (OpClickCreate c)); simpl; auto.
Qed.

(** C3: for a request that resolves a link, the 302 is written when only the
    store lookup has settled and, at most, the request to the provider has
    been sent: no part of the lookup's outcome and no click insert precedes
    it. Whatever the provider and the insert then do, the trace holds no
    second response and no unhandled rejection, and the response is the same
    in every world whose store answers. [Click.create] is called with a
    document whose [urlId] is the resolved link's id for every outcome of the
    lookup (with the Unknown triple when the lookup fails), and when the
    store accepts that insert the click is in the store afterwards. *)
Theorem redirect_responds_first (w : World) (req : Request) (d : Db) (u : Url.t) :
  params_shortCode req <> "api" ->
  store_answers w (params_shortCode req) ->
  resolve (urls d) (params_shortCode req) = Some u ->
  let click := click_of req u (located w (getClientIP req)) in
  exists before after,
    trace (serve w (redirect_handler req) d) =
      before ++ Responded (reply_redirect req u) :: after /\
    before = resolved_events (params_shortCode req) ++ lookup_started req /\
    existsb is_background_outcome before = false /\
    response_of (trace (serve w (redirect_handler req) d)) = Some (reply_redirect req u) /\
    existsb is_response after = false /\
    existsb is_rejection after = false /\
    In (Issued (OpClickCreate click)) after /\
    Click.urlId click = Url._id u /\
    (is_local_ip (getClientIP req) = false ->
     lookup_outcome w (getClientIP req) = NetworkError \/
     lookup_outcome w (getClientIP req) = MalformedResponse ->
     (Click.city click, Click.country click, Click.region click) =
     ("Unknown", "Unknown", "Unknown")) /\
    (rejects w (OpClickCreate click) = None ->
     db (serve w (redirect_handler req) d) =
     {| urls := urls d; clicks := clicks d ++ [click] |}) /\
    (forall w', store_answers w' (params_shortCode req) ->
       response_of (trace (serve w' (redirect_handler req) d)) =
       Some (reply_redirect req u)).
Proof.
  intros Hs Hw Hr click.
  destruct (redirect_serve_hit w req d u Hs Hw Hr) as (rest & Hrest & Hrun).
  destruct (save_click_events_quiet w click) as (Hq1 & Hq2 & Hq3).
  exists (resolved_events (params_shortCode req) ++ lookup_started req),
         (rest ++ save_click_events w click).
  rewrite Hrun. simpl trace. simpl db.
  split; [reflexivity|]. split; [reflexivity|]. split.
  { unfold lookup_started. destruct (is_local_ip (getClientIP req)); reflexivity. }
  split.
  { apply (response_of_first _ _ (reply_redirect req u)), before_redirect_quiet. }
  split.
  { rewrite existsb_app, Hq1, orb_false_r.
    apply (existsb_excluded is_lookup_event); [|exact Hrest].
    intros [[]| [] ?| | |]; simpl; congruence. }
  split.
  { rewrite existsb_app, Hq2, orb_false_r.
    apply (existsb_excluded is_lookup_event); [|exact Hrest].
    intros [[]| [] ?| | |]; simpl; congruence. }
  split; [apply in_or_app; now right|].
  split; [reflexivity|].
  split.
  { intros Hl Hfail. subst click. unfold click_of, located. simpl. rewrite Hl.
    destruct Hfail as [-> | ->]; reflexivity. }
  split.
  { intros Hok. unfold save_click_db. fold click. now rewrite Hok. }
  intros w' Hw'.
  destruct (redirect_serve_hit w' req d u Hs Hw' Hr) as (rest' & _ & Hrun').
  rewrite Hrun'. simpl trace.
  apply (response_of_first _ _ (reply_redirect req u)), before_redirect_quiet.
Qed.

Lemma redirect_responds_first_witness :
  exists before after,
    trace (serve world_offline (redirect_handler (request_for "abc123")) db_sample) =
      before ++ Responded (reply_redirect (request_for "abc123") link_abc123) :: after /\
    In (Issued (OpClickCreate (click_of (request_for "abc123") link_abc123 geo_unknown)))
       after /\
    db (serve world_offline (redirect_handler (request_for "abc123")) db_sample) =
    {| urls := urls db_sample;
       clicks := clicks db_sample ++
                 [click_of (request_for "abc123") link_abc123 geo_unknown] |}.
Proof.
  destruct (redirect_responds_first world_offline (request_for "abc123") db_sample
              link_abc123)
    as (before & after & Htrace & _ & _ & _ & _ & _ & Hcall & _ & _ & Hdb & _).
  - discriminate.
  - reflexivity.
  - reflexivity.
  - exists before, after. split; [exact Htrace|]. split; [exact Hcall|].
    apply Hdb. reflexivity.
Defined.

(** C9: the guard of the redirect route fires for the segment "api" and for
    no other: "api" is answered with a 404 and the store is not asked; every
    other segment, "apidocs" for one, is looked up in the store as a short
    code or alias and, when a link has it, redirects there. *)
Theorem redirect_reserved_only_api (w : World) (req : Request) (d : Db) :
  (params_shortCode req = "api" ->
   trace (serve w (redirect_handler req) d) =
   [Responded {| status := 404; location := None;
                 payload := JsonMessage false "Not found" |}])
  /\ (params_shortCode req <> "api" ->
      exists rest,
        trace (serve w (redirect_handler req) d) =
        Issued (OpUrlFindOne (short_or_custom (params_shortCode req))) :: rest)
  /\ (params_shortCode req = "apidocs" ->
      exists rest,
        trace (serve w (redirect_handler req) d) =
        Issued (OpUrlFindOne (short_or_custom "apidocs")) :: rest)
  /\ (params_shortCode req <> "api" ->
      store_answers w (params_shortCode req) ->
      forall u, resolve (urls d) (params_shortCode req) = Some u ->
      response_of (trace (serve w (redirect_handler req) d)) = Some (reply_redirect req u)).
Proof.
  assert (Hlookup : params_shortCode req <> "api" ->
      exists rest,
        trace (serve w (redirect_handler req) d) =
        Issued (OpUrlFindOne (short_or_custom (params_shortCode req))) :: rest).
  { intros Hs.
    destruct (rejects w (OpUrlFindOne (short_or_custom (params_shortCode req))))
      as [e|] eqn:Hw.
    - rewrite (redirect_serve_store_error w req d e Hs Hw). simpl. eauto.
    - destruct (resolve (urls d) (params_shortCode req)) as [u|] eqn:Hr.
      + destruct (redirect_serve_hit w req d u Hs Hw Hr) as (rest & _ & Hrun).
        rewrite Hrun. simpl. eauto.
      + rewrite (redirect_serve_miss w req d Hs Hw Hr). simpl. eauto. }
  split; [|split; [exact Hlookup|split]].
  - intros Hs. now rewrite (redirect_serve_api w req d Hs).
  - intros Hs. rewrite <- Hs. apply Hlookup. rewrite Hs. discriminate.
  - intros Hs Hw u Hr.
    destruct (redirect_serve_hit w req d u Hs Hw Hr) as (rest & _ & Hrun).
    rewrite Hrun. simpl trace.
    apply (response_of_first _ _ (reply_redirect req u)), before_redirect_quiet.
Qed.

Lemma redirect_reserved_only_api_witness :
  (exists rest,
     trace (serve world_calm (redirect_handler (request_for "apidocs")) db_sample) =
     Issued (OpUrlFindOne (short_or_custom "apidocs")) :: rest) /\
  trace (serve world_calm (redirect_handler (request_for "api")) db_sample) =
  [Responded {| status := 404; location := None;
                payload := JsonMessage false "Not found" |}].
Proof.
  split.
  - apply (redirect_reserved_only_api world_calm (request_for "apidocs") db_sample).
    reflexivity.
  - apply (redirect_reserved_only_api world_calm (request_for "api") db_sample).
    reflexivity.
Defined.

(** ** Lookup endpoint *)

Lemma lookup_serve (w : World) (req : Request) (d : Db) :
  store_answers w (params_shortCode req) ->
  serve w (lookup_handler req) d =
  {| db := d;
     trace := resolved_events (params_shortCode req) ++
              [Responded
                 match resolve (urls d) (params_shortCode req) with
                 | Some u =>
                     {| status := 200; location := None;
                        payload := JsonLookup (Url._id u) (Url.originalUrl u) |}
                 | None =>
                     {| status := 404; location := None;
                        payload := JsonMessage false "Short link not found" |}
                 end] |}.
Proof.
  intros Hw. unfold serve, lookup_handler.
  cbn. unfold settle. rewrite Hw. cbn -[satisfies short_or_custom].
  fold (resolve (urls d) (params_shortCode req)).
  destruct (resolve (urls d) (params_shortCode req)); reflexivity.
Qed.

(** C6: the query both public routes send is answered by [resolve], and
    [resolve] finds a link only if the segment is the link's short code or its
    alias, finds some link whenever a stored link has the segment, and, in a
    store where a segment resolves to at most one link, finds exactly the
    links that have it. A link with short code "abc123" and alias "mysite" is
    found by "abc123" and by "mysite" and by nothing else. *)
Theorem resolver_either_field :
  (forall w segment d,
     perform w (OpUrlFindOne (short_or_custom segment)) d =
     (Normal (VUrl (resolve (urls d) segment)), d))
  /\ (forall docs segment u,
        resolve docs segment = Some u -> In u docs /\ matches_segment segment u)
  /\ (forall docs segment,
        (exists u, resolve docs segment = Some u) <->
        (exists u, In u docs /\ matches_segment segment u))
  /\ (forall docs segment u,
        lookup_unambiguous docs ->
        (resolve docs segment = Some u <-> In u docs /\ matches_segment segment u))
  /\ (forall segment,
        resolve [link_abc123] segment = Some link_abc123 <->
        segment = "abc123" \/ segment = "mysite")
  /\ (forall w req d,
        store_answers w (params_shortCode req) ->
        response_of (trace (serve w (lookup_handler req) d)) =
        Some match resolve (urls d) (params_shortCode req) with
             | Some u =>
                 {| status := 200; location := None;
                    payload := JsonLookup (Url._id u) (Url.originalUrl u) |}
             | None =>
                 {| status := 404; location := None;
                    payload := JsonMessage false "Short link not found" |}
             end).
Proof.
  split; [reflexivity|].
  split; [exact resolve_sound|].
  split.
  { intros docs segment. split.
    - intros (u & Hr). exists u. now apply resolve_sound.
    - intros (u & Hin & Hm). now apply (resolve_complete docs segment u). }
  split.
  { intros docs segment u Huniq. split.
    - apply resolve_sound.
    - intros [Hin Hm]. now apply resolve_unambiguous. }
  split.
  { intros segment. split.
    - intros Hr. apply resolve_sound in Hr as [_ [Hm|Hm]].
      + left. now rewrite <- Hm.
      + right. now injection Hm.
    - intros Hm. apply resolve_unambiguous.
      + intros s u1 u2 [<-|[]] [<-|[]] _ _. reflexivity.
      + now left.
      + destruct Hm as [->| ->]; [left | right]; reflexivity. }
  intros w req d Hw. rewrite (lookup_serve w req d Hw). reflexivity.
Qed.

Lemma resolver_either_field_witness :
  resolve (urls db_sample) "mysite" = Some link_abc123 /\
  response_of (trace (serve world_calm (lookup_handler (request_for "abc123")) db_sample)) =
  Some {| status := 200; location := None;
          payload := JsonLookup 1 "https://example.com/landing" |}.
Proof.
  destruct resolver_either_field as (_ & _ & _ & Hiff & _ & Hroute).
  split.
  - apply (Hiff (urls db_sample) "mysite" link_abc123 db_sample_unambiguous).
    split; [now left | right; reflexivity].
  - apply (Hroute world_calm (request_for "abc123") db_sample). reflexivity.
Defined.

(** ** Delete route *)

Lemma remove_first_keeps_other (id : ObjectId) (docs : list Url.t) (u : Url.t) :
  In u docs -> Url._id u <> id -> In u (remove_first_by_id id docs).
Proof.
  intros Hin Hid. induction docs as [|v docs IH]; simpl; [destruct Hin|].
  destruct (Nat.eqb_spec (Url._id v) id) as [Hv|Hv].
  - destruct Hin as [->|Hin]; [contradiction | exact Hin].
  - destruct Hin as [->|Hin]; [now left | right; now apply IH].
Qed.

Lemma remove_first_gone (id : ObjectId) (docs : list Url.t) (u : Url.t) :
  In u docs -> ~ In u (remove_first_by_id id docs) -> Url._id u = id.
Proof.
  intros Hin Hgone. destruct (Nat.eq_dec (Url._id u) id) as [H|H]; [exact H|].
  destruct Hgone. now apply remove_first_keeps_other.
Qed.

Lemma delete_many_clears (id : ObjectId) (cs : list Click.t) (c : Click.t) :
  In c (filter (fun c => negb (Nat.eqb (Click.urlId c) id)) cs) ->
  In c cs /\ Click.urlId c <> id.
Proof.
  intros H. apply filter_In in H as [Hin Hne]. split; [exact Hin|].
  apply negb_true_iff in Hne. now apply Nat.eqb_neq.
Qed.

Lemma owned_by_id_sound (req : Request) (docs : list Url.t) (u : Url.t) :
  find (satisfies (owned_by_id req)) docs = Some u ->
  In u docs /\ Url._id u = params_id req /\ Url.userId u = user_id req.
Proof.
  intros H. apply find_some in H as [Hin Hs]. simpl in Hs.
  apply andb_true_iff in Hs as [H1 H2].
  apply Nat.eqb_eq in H1, H2. auto.
Qed.

(** The outcomes of the delete route: nothing changed and no 200; the clicks
    gone, the link kept and a 500; or clicks and link gone and a 200, which
    takes every call to be let through. *)
Lemma delete_serve_cases (w : World) (req : Request) (d : Db) :
  exists rt,
    serve w (delete_handler req) d = rt /\
    ((db rt = d /\
      (exists r, response_of (trace rt) = Some r /\ status r <> 200) /\
      (forall u, find (satisfies (owned_by_id req)) (urls d) = Some u ->
                 exists op, rejects w op <> None))
     \/ (exists u,
           find (satisfies (owned_by_id req)) (urls d) = Some u /\
           db rt =
           {| urls := urls d;
              clicks := filter (fun c => negb (Nat.eqb (Click.urlId c) (Url._id u)))
                          (clicks d) |} /\
           (exists r, response_of (trace rt) = Some r /\ status r <> 200) /\
           exists op, rejects w op <> None)
     \/ (exists u,
           find (satisfies (owned_by_id req)) (urls d) = Some u /\
           db rt =
           {| urls := remove_first_by_id (Url._id u) (urls d);
              clicks := filter (fun c => negb (Nat.eqb (Click.urlId c) (Url._id u)))
                          (clicks d) |} /\
           response_of (trace rt) =
           Some {| status := 200; location := None;
                   payload := JsonMessage true "URL deleted successfully" |})).
Proof.
  unfold serve, delete_handler.
  cbn -[satisfies]. unfold settle. fold (owned_by_id req).
  destruct (rejects w (OpUrlFindOne (owned_by_id req))) as [e|] eqn:Hq.
  { eexists. split; [reflexivity|]. left. cbn.
    split; [reflexivity|]. split.
    - eexists. split; [reflexivity|]. discriminate.
    - intros u _. exists (OpUrlFindOne (owned_by_id req)). congruence. }
  cbn -[satisfies].
  destruct (find (satisfies (owned_by_id req)) (urls d)) as [u|] eqn:Hf.
  2:{ eexists. split; [reflexivity|]. left. cbn.
      split; [reflexivity|]. split.
      - eexists. split; [reflexivity|]. discriminate.
      - intros u Hu. discriminate Hu. }
  assert (Himage :
    forall k : Js (Task unit) unit,
      (exists e,
         rejects w (OpDeleteImage (Url.qrPublicId u)) = Some e /\
         JsString.truthy (Url.qrPublicId u) = true) \/
      exists evs,
        forallb (fun ev => negb (is_response ev)) evs = true /\
        forall h t,
          run start w
            (try_catch
               ((if JsString.truthy (Url.qrPublicId u)
                 then deleteImage (Url.qrPublicId u) else Ret tt) ;; k) h)
            {| db := d; trace := t |} =
          run start w (try_catch k h) {| db := d; trace := t ++ evs |}).
  { intros k. destruct (JsString.truthy (Url.qrPublicId u)).
    - destruct (rejects w (OpDeleteImage (Url.qrPublicId u))) as [e|] eqn:Hi.
      + left. eauto.
      + right. exists [Issued (OpDeleteImage (Url.qrPublicId u));
                       Settled (OpDeleteImage (Url.qrPublicId u)) true].
        split; [reflexivity|].
        intros h t. cbn. unfold settle. rewrite Hi. cbn.
        unfold emit. cbn. rewrite <- app_assoc. reflexivity.
    - right. exists []. split; [reflexivity|].
      intros h t. cbn. now rewrite app_nil_r. }
  match goal with
  | |- context [bind (if _ then _ else _) (fun _ => ?k)] =>
      destruct (Himage k) as [(e & Hi & Hqr) | (evs & Hevs & Hrun)]
  end.
  { rewrite Hqr. cbn. unfold settle. rewrite Hi. cbn.
    eexists. split; [reflexivity|]. left. cbn.
    split; [reflexivity|]. split.
    - eexists. split; [reflexivity|]. discriminate.
    - intros u' _. exists (OpDeleteImage (Url.qrPublicId u)). congruence. }
  rewrite Hrun. clear Hrun Himage. cbn. unfold settle.
  destruct (rejects w (OpClickDeleteMany (Url._id u))) as [e|] eqn:Hm.
  { cbn. eexists. split; [reflexivity|]. left. cbn.
    split; [reflexivity|]. split.
    - eexists. split; [|shelve].
      rewrite <- !app_assoc, (response_of_quiet_prefix _ _ Hevs). reflexivity.
      Unshelve. discriminate.
    - intros u' _. exists (OpClickDeleteMany (Url._id u)). congruence. }
  cbn. unfold settle.
  destruct (rejects w (OpUrlDeleteOne (Url._id u))) as [e|] eqn:Ho.
  { cbn. eexists. split; [reflexivity|]. right. left. exists u. cbn.
    split; [reflexivity|]. split; [reflexivity|]. split.
    - eexists. split; [|shelve].
      rewrite <- !app_assoc, (response_of_quiet_prefix _ _ Hevs). reflexivity.
      Unshelve. discriminate.
    - exists (OpUrlDeleteOne (Url._id u)). congruence. }
  cbn. eexists. split; [reflexivity|]. right. right. exists u. cbn.
  split; [reflexivity|]. split; [reflexivity|].
  rewrite <- !app_assoc, (response_of_quiet_prefix _ _ Hevs). reflexivity.
Qed.

Lemma db_sample_no_orphans : no_orphans db_sample.
Proof.
  intros c [<-|[<-|[<-|[]]]]; simpl.
  - exists link_abc123. split; [now left | reflexivity].
  - exists link_alias_api. split; [right; now left | reflexivity].
  - exists link_abc123. split; [now left | reflexivity].
Qed.

(** C8, as stated, fails: the cascade runs once, when the link is deleted,
    and the public click route stores a click without looking its link up. A
    click sent for the deleted link after the owner's delete is answered 201
    and stays in the store, referring to no link. *)
Lemma delete_then_click_orphaned :
  no_orphans db_sample /\
  response_of (trace (serve world_calm (delete_handler (request_for "abc123")) db_sample)) =
    Some {| status := 200; location := None;
            payload := JsonMessage true "URL deleted successfully" |} /\
  (forall u, In u (urls db_after_delete) -> Url._id u <> 1) /\
  fst (serve_answer world_calm (store_click_handler (body_bare 1)) db_after_delete) =
    Normal {| answer_status := 201;
              answer_body := BodyClick (click_of_body 1 (body_bare 1)) |} /\
  In (click_of_body 1 (body_bare 1))
     (clicks (db (snd (serve_answer world_calm (store_click_handler (body_bare 1))
                         db_after_delete)))) /\
  ~ no_orphans (db (snd (serve_answer world_calm (store_click_handler (body_bare 1))
                           db_after_delete))).
Proof.
  split; [exact db_sample_no_orphans|]. split; [reflexivity|].
  split; [intros u [<-|[]]; discriminate|]. split; [reflexivity|].
  split; [right; now left|].
  intros Hno.
  destruct (Hno (click_of_body 1 (body_bare 1))) as (u & Hin & Hid);
    [right; now left|].
  destruct Hin as [<-|[]]. discriminate Hid.
Qed.

(** C8, amended: one run of the delete route, with no other request handled
    in between. When it answers 200 it has removed a link owned by the caller
    together with every click whose [urlId] is that link's id; it answers 200
    whenever the caller's link is found and no call is rejected. In every
    outcome of that run a store without orphaned clicks is without them when
    the run ends, and a link that is gone has no click left. *)
Theorem delete_cascades (w : World) (req : Request) (d : Db) :
  (forall r,
     response_of (trace (serve w (delete_handler req) d)) = Some r ->
     status r = 200 ->
     exists u,
       find (satisfies (owned_by_id req)) (urls d) = Some u /\
       Url._id u = params_id req /\ Url.userId u = user_id req /\
       urls (db (serve w (delete_handler req) d)) =
         remove_first_by_id (Url._id u) (urls d) /\
       clicks (db (serve w (delete_handler req) d)) =
         filter (fun c => negb (Nat.eqb (Click.urlId c) (Url._id u))) (clicks d) /\
       forall c, In c (clicks (db (serve w (delete_handler req) d))) ->
                 Click.urlId c <> Url._id u)
  /\ (forall u,
        find (satisfies (owned_by_id req)) (urls d) = Some u ->
        (forall op, rejects w op = None) ->
        response_of (trace (serve w (delete_handler req) d)) =
        Some {| status := 200; location := None;
                payload := JsonMessage true "URL deleted successfully" |})
  /\ (no_orphans d -> no_orphans (db (serve w (delete_handler req) d)))
  /\ (forall u,
        In u (urls d) -> ~ In u (urls (db (serve w (delete_handler req) d))) ->
        forall c, In c (clicks (db (serve w (delete_handler req) d))) ->
                  Click.urlId c <> Url._id u).
Proof.
  destruct (delete_serve_cases w req d) as (rt & -> & Hcases).
  destruct Hcases as [(Hdb & (r0 & Hr0 & Hs0) & Hrej)
                     | [(u0 & Hf & Hdb & (r0 & Hr0 & Hs0) & Hrej)
                       | (u0 & Hf & Hdb & Hresp)]].
  - (* nothing changed *)
    rewrite Hdb. split; [|split; [|split]].
    + intros r Hr Hs. congruence.
    + intros u Hu Hok. destruct (Hrej u Hu) as (op & Hop). now destruct Hop.
    + auto.
    + intros u Hin Hgone. contradiction.
  - (* the clicks are gone, the link is kept *)
    rewrite Hdb. simpl. split; [|split; [|split]].
    + intros r Hr Hs. congruence.
    + intros u Hu Hok. destruct Hrej as (op & Hop). now destruct Hop.
    + intros Hno c Hc. apply delete_many_clears in Hc as [Hc _]. now apply Hno.
    + intros u Hin Hgone. contradiction.
  - (* clicks and link are gone *)
    rewrite Hdb, Hresp. simpl. split; [|split; [|split]].
    + intros r _ _. exists u0.
      destruct (owned_by_id_sound req _ _ Hf) as (_ & Hid & Hown).
      repeat split; auto.
      intros c Hc. now apply delete_many_clears in Hc as [_ Hc].
    + reflexivity.
    + intros Hno c Hc. apply delete_many_clears in Hc as [Hc Hne].
      destruct (Hno c Hc) as (u & Hin & Hid). exists u. split; [|exact Hid].
      apply remove_first_keeps_other; [exact Hin | congruence].
    + intros u Hin Hgone c Hc. apply delete_many_clears in Hc as [_ Hne].
      now rewrite (remove_first_gone _ _ _ Hin Hgone).
Qed.

Lemma delete_cascades_witness :
  db (serve world_calm (delete_handler (request_for "abc123")) db_sample) =
  {| urls := [link_alias_api]; clicks := [click_on 2] |} /\
  no_orphans (db (serve world_calm (delete_handler (request_for "abc123")) db_sample)) /\
  response_of (trace (serve world_calm (delete_handler (request_for "abc123")) db_sample)) =
  Some {| status := 200; location := None;
          payload := JsonMessage true "URL deleted successfully" |}.
Proof.
  destruct (delete_cascades world_calm (request_for "abc123") db_sample)
    as (_ & Hok & Hinv & _).
  split; [reflexivity|]. split.
  - exact (Hinv db_sample_no_orphans).
  - apply (Hok link_abc123); reflexivity.
Defined.

(** ** A request from end to end *)

(** A visitor behind a proxy follows the alias: the store is asked, the
    request to the provider leaves, the 302 is written, and only then do the
    provider's answer and the insert arrive. *)
Example redirect_trace_sample :
  trace (serve world_calm (redirect_handler (request_for "mysite")) db_sample) =
  [Issued (OpUrlFindOne (short_or_custom "mysite"));
   Settled (OpUrlFindOne (short_or_custom "mysite")) true;
   Issued (OpFetch (geo_api_url "8.8.8.8"));
   Responded (reply_redirect (request_for "mysite") link_abc123);
   Settled (OpFetch (geo_api_url "8.8.8.8")) true;
   Issued (OpResponseJson (provider world_calm (geo_api_url "8.8.8.8")));
   Settled (OpResponseJson (provider world_calm (geo_api_url "8.8.8.8"))) true;
   Issued (OpClickCreate
             (click_of (request_for "mysite") link_abc123
                {| city := "Paris"; country := "France"; region := "Ile-de-France" |}));
   Settled (OpClickCreate
              (click_of (request_for "mysite") link_abc123
                 {| city := "Paris"; country := "France"; region := "Ile-de-France" |}))
     true].
Proof. reflexivity. Qed.

(** A visitor on the local network: no request leaves, and the click is
    still saved after the 302 has been written. *)
Example redirect_trace_local :
  trace (serve world_calm (redirect_handler (request_local "abc123")) db_sample) =
  [Issued (OpUrlFindOne (short_or_custom "abc123"));
   Settled (OpUrlFindOne (short_or_custom "abc123")) true;
   Responded (reply_redirect (request_local "abc123") link_abc123);
   Issued (OpClickCreate (click_of (request_local "abc123") link_abc123 geo_local));
   Settled (OpClickCreate (click_of (request_local "abc123") link_abc123 geo_local)) true].
Proof. reflexivity. Qed.

(** The provider is down: the click is saved with the Unknown triple. *)
Example redirect_clicks_offline :
  clicks (db (serve world_offline (redirect_handler (request_for "abc123")) db_sample)) =
  clicks db_sample ++ [click_of (request_for "abc123") link_abc123 geo_unknown].
Proof. reflexivity. Qed.

(** The lookup endpoint reads and records nothing. *)
Example lookup_leaves_store :
  db (serve world_calm (lookup_handler (request_for "mysite")) db_sample) = db_sample.
Proof. reflexivity. Qed.

(** * Further properties *)

(** ** Strings, continued *)

Section MoreStringFacts.

Import JsString.

Lemma startsWith_lower (s t : string) :
  startsWith s t = true -> startsWith (toLowerCase s) (toLowerCase t) = true.
Proof.
  revert s. induction t as [|b t IH]; intros s; [now destruct s|].
  destruct s as [|a s]; simpl; [discriminate|].
  intros H. apply andb_true_iff in H as [Hab Hst].
  apply Ascii.eqb_eq in Hab. subst b.
  now rewrite Ascii.eqb_refl, (IH _ Hst).
Qed.

(** Lower-casing keeps occurrences. *)
Lemma includes_lower (s t : string) :
  includes s t = true -> includes (toLowerCase s) (toLowerCase t) = true.
Proof.
  induction s as [|a s IH]; intros H.
  - destruct t; [reflexivity | discriminate H].
  - change (includes (String a s) t) with (startsWith (String a s) t || includes s t) in H.
    change (includes (toLowerCase (String a s)) (toLowerCase t)) with
      (startsWith (toLowerCase (String a s)) (toLowerCase t) ||
       includes (toLowerCase s) (toLowerCase t)).
    apply orb_true_iff in H as [H|H].
    + now rewrite (startsWith_lower _ _ H).
    + rewrite (IH H). apply orb_true_r.
Qed.

Lemma includes_unit (a c : ascii) (s : string) :
  includes (String a s) (String c "") = Ascii.eqb a c || includes s (String c "").
Proof.
  simpl. destruct s; simpl; now rewrite andb_true_r.
Qed.

Lemma includes_unit_nil (c : ascii) : includes "" (String c "") = false.
Proof. reflexivity. Qed.

Lemma trimStart_keeps_absence (c : ascii) (s : string) :
  includes s (String c "") = false -> includes (trimStart s) (String c "") = false.
Proof.
  induction s as [|a s IH]; [reflexivity|].
  intros H. simpl trimStart. destruct (isWhiteSpace a); [|exact H].
  rewrite includes_unit in H. apply orb_false_iff in H as [_ H]. now apply IH.
Qed.

Lemma trimEnd_keeps_absence (c : ascii) (s : string) :
  includes s (String c "") = false -> includes (trimEnd s) (String c "") = false.
Proof.
  induction s as [|a s IH]; [reflexivity|].
  intros H. rewrite includes_unit in H. apply orb_false_iff in H as [Ha H].
  specialize (IH H). simpl trimEnd.
  destruct (trimEnd s) as [|k ks].
  - destruct (isWhiteSpace a); [reflexivity|].
    rewrite includes_unit, Ha. reflexivity.
  - rewrite includes_unit, Ha. exact IH.
Qed.

Lemma split_first_has_no_sep (c : ascii) (s : string) :
  includes (split_first c s) (String c "") = false.
Proof.
  induction s as [|a s IH]; [reflexivity|].
  simpl split_first. destruct (Ascii.eqb a c) eqn:Hac; [reflexivity|].
  now rewrite includes_unit, Hac, IH.
Qed.

(** Before the first separator of [first ++ sep ++ rest] is [first], when
    [first] holds no separator. *)
Lemma split_first_app (c : ascii) (first rest : string) :
  includes first (String c "") = false ->
  split_first c (first ++ String c rest) = first.
Proof.
  induction first as [|a first IH]; simpl append.
  - intros _. simpl. now rewrite Ascii.eqb_refl.
  - intros H. rewrite includes_unit in H. apply orb_false_iff in H as [Ha H].
    simpl. rewrite Ha. now rewrite IH.
Qed.


Lemma trimEnd_idem (s : string) : trimEnd (trimEnd s) = trimEnd s.
Proof.
  induction s as [|a s IH]; [reflexivity|].
  simpl trimEnd at 2. simpl trimEnd at 3.
  destruct (trimEnd s) as [|k ks] eqn:Hs.
  - destruct (isWhiteSpace a) eqn:Ha; [reflexivity|]. simpl. now rewrite Ha.
  - change (trimEnd (String a (String k ks))) with
      (match trimEnd (String k ks) with
       | EmptyString => if isWhiteSpace a then EmptyString else String a EmptyString
       | kept => String a kept
       end).
    now rewrite IH.
Qed.

(** What [trimStart] leaves starts with no white space, and [trimEnd] does not
    touch such a start. *)
Lemma trimStart_trimEnd_trimStart (s : string) :
  trimStart (trimEnd (trimStart s)) = trimEnd (trimStart s).
Proof.
  induction s as [|a s IH]; [reflexivity|].
  simpl trimStart at 2 3. destruct (isWhiteSpace a) eqn:Ha; [exact IH|].
  simpl trimEnd. destruct (trimEnd s) as [|k ks]; rewrite ?Ha; simpl; now rewrite Ha.
Qed.

Lemma trim_idem (s : string) : trim (trim s) = trim s.
Proof.
  unfold trim. now rewrite trimStart_trimEnd_trimStart, trimEnd_idem.
Qed.

Lemma truthy_lower (s : string) : truthy (toLowerCase s) = truthy s.
Proof. destruct s; reflexivity. Qed.

End MoreStringFacts.

(** ** User-agent classifier, continued *)

Ltac split_ifs H :=
  repeat match type of H with
         | context [if ?b then _ else _] => destruct b eqn:?
         end.

Lemma includes_nonempty (s t : string) :
  JsString.includes s t = true -> t <> "" -> JsString.truthy s = true.
Proof.
  intros H Ht. destruct s; [|reflexivity].
  destruct t; [now destruct Ht | discriminate H].
Qed.

Lemma contains_mobile_token (ua token : string) :
  In (JsString.toLowerCase token) mobile_or_tablet_pattern ->
  token <> "" ->
  JsString.includes ua token = true ->
  getDeviceType ua = "mobile".
Proof.
  intros Hin Hne Hinc. rewrite getDeviceType_unfold.
  rewrite (includes_nonempty _ _ Hinc Hne). simpl negb. cbv iota.
  assert (H : existsb (JsString.includes (JsString.toLowerCase ua))
                mobile_or_tablet_pattern = true).
  { apply existsb_exists. exists (JsString.toLowerCase token).
    split; [exact Hin | now apply includes_lower]. }
  now rewrite H.
Qed.

(** X1: a user agent whose operating system is classified "Android" or "iOS"
    is classified as a "mobile" device; so is every click the redirect route
    builds from it. *)
Theorem mobile_os_means_mobile_device (ua : string) :
  getOS ua = "Android" \/ getOS ua = "iOS" ->
  getDeviceType ua = "mobile" /\
  forall req u g,
    JsString.or_else (headers req "user-agent") "" = ua ->
    Click.device (click_of req u g) = "mobile".
Proof.
  intros Hos.
  assert (Hdev : getDeviceType ua = "mobile").
  { unfold getOS in Hos. cbv zeta in Hos. destruct Hos as [H|H].
    - split_ifs H; try discriminate H.
      apply (contains_mobile_token ua "Android"); [simpl; tauto | discriminate | assumption].
    - split_ifs H; try discriminate H.
      match goal with
      | Hor : (_ || _) = true |- _ => apply orb_true_iff in Hor as [Hi|Hi]
      end.
      + apply (contains_mobile_token ua "iPhone"); [simpl; tauto | discriminate | assumption].
      + apply (contains_mobile_token ua "iPad"); [simpl; tauto | discriminate | assumption]. }
  split; [exact Hdev|].
  intros req u g Hua. unfold click_of. simpl. now rewrite Hua.
Qed.

Lemma mobile_os_means_mobile_device_witness :
  getDeviceType "Mozilla/5.0 (Linux; Android 13; Pixel 7) Chrome/120.0" = "mobile".
Proof.
  refine (proj1 (mobile_os_means_mobile_device
                   "Mozilla/5.0 (Linux; Android 13; Pixel 7) Chrome/120.0" _)).
  left. vm_compute. reflexivity.
Defined.

(** X2: the operating system is "iOS" only for user agents that name an
    iPhone or iPad and contain none of "Windows", "Mac OS X" and "Android"; a
    user agent that contains "Mac OS X" and not "Windows" is classified
    "macOS", also when it names an iPhone or iPad. *)
Theorem getOS_ios_after_macos (ua : string) :
  (getOS ua = "iOS" <->
   (JsString.includes ua "iPhone" || JsString.includes ua "iPad") = true /\
   JsString.includes ua "Windows" = false /\
   JsString.includes ua "Mac OS X" = false /\
   JsString.includes ua "Android" = false)
  /\ (JsString.includes ua "Mac OS X" = true ->
      JsString.includes ua "Windows" = false ->
      getOS ua = "macOS").
Proof.
  assert (Hsub : forall v, JsString.includes ua "Windows" = false ->
                           JsString.includes ua ("Windows NT " ++ v) = false).
  { intros v Hw. destruct (JsString.includes ua ("Windows NT " ++ v)) eqn:Hv; [|reflexivity].
    rewrite <- Hw. clear Hw. symmetry.
    induction ua as [|a s IH]; [discriminate Hv|].
    change (JsString.includes (String a s) ("Windows NT " ++ v)) with
      (JsString.startsWith (String a s) ("Windows NT " ++ v) ||
       JsString.includes s ("Windows NT " ++ v)) in Hv.
    change (JsString.includes (String a s) "Windows") with
      (JsString.startsWith (String a s) "Windows" || JsString.includes s "Windows").
    apply orb_true_iff in Hv as [Hv|Hv].
    - assert (Hp : JsString.startsWith (String a s) "Windows" = true).
      { clear IH. revert Hv. generalize (String a s). intros t.
        do 7 (destruct t as [|? t]; [discriminate|];
              simpl; intros Hv; apply andb_true_iff in Hv as [-> Hv]; simpl;
              revert Hv).
        intros _. now destruct t. }
      now rewrite Hp.
    - rewrite (IH Hv). apply orb_true_r. }
  split.
  - split.
    + intros H. unfold getOS in H. cbv zeta in H.
      split_ifs H; try discriminate H. auto.
    + intros (Hi & Hw & Hm & Ha).
      assert (Ht : JsString.truthy ua = true).
      { apply orb_true_iff in Hi as [Hi|Hi];
          eapply includes_nonempty; eauto; discriminate. }
      unfold getOS. cbv zeta. rewrite Ht. simpl negb. cbv iota.
      pose proof (Hsub "10" Hw) as H10. pose proof (Hsub "6.3" Hw) as H63.
      pose proof (Hsub "6.2" Hw) as H62. pose proof (Hsub "6.1" Hw) as H61.
      cbn [append] in H10, H63, H62, H61. rewrite H10, H63, H62, H61.
      now rewrite Hw, Hm, Ha, Hi.
  - intros Hm Hw.
    unfold getOS. cbv zeta.
    rewrite (includes_nonempty _ _ Hm); [|discriminate]. simpl negb. cbv iota.
    pose proof (Hsub "10" Hw) as H10. pose proof (Hsub "6.3" Hw) as H63.
    pose proof (Hsub "6.2" Hw) as H62. pose proof (Hsub "6.1" Hw) as H61.
    cbn [append] in H10, H63, H62, H61. rewrite H10, H63, H62, H61.
    now rewrite Hw, Hm.
Qed.

Lemma getOS_ios_after_macos_witness :
  getOS "Mozilla/5.0 (iPhone; CPU iPhone OS 16_0 like Mac OS X) Safari/604.1" = "macOS".
Proof.
  apply (getOS_ios_after_macos
           "Mozilla/5.0 (iPhone; CPU iPhone OS 16_0 like Mac OS X) Safari/604.1");
    reflexivity.
Defined.

(** X3: the browser is "Opera" only for user agents that contain "Opera" or
    "OPR" and none of "Firefox", "Edg", "Chrome" and "Safari"; a user agent
    that contains "Chrome" and neither "Firefox" nor "Edg" is classified
    "Chrome", also when it carries the "OPR" token of Chromium-based Opera. *)
Theorem getBrowser_opera_after_chrome (ua : string) :
  (getBrowser ua = "Opera" <->
   (JsString.includes ua "Opera" || JsString.includes ua "OPR") = true /\
   JsString.includes ua "Firefox" = false /\
   JsString.includes ua "Edg" = false /\
   JsString.includes ua "Chrome" = false /\
   JsString.includes ua "Safari" = false)
  /\ (JsString.includes ua "Chrome" = true ->
      JsString.includes ua "Firefox" = false ->
      JsString.includes ua "Edg" = false ->
      getBrowser ua = "Chrome").
Proof.
  split.
  - split.
    + intros H. unfold getBrowser in H. cbv zeta in H.
      split_ifs H; try discriminate H. auto.
    + intros (Ho & Hf & He & Hc & Hs).
      assert (Ht : JsString.truthy ua = true).
      { apply orb_true_iff in Ho as [Ho|Ho];
          eapply includes_nonempty; eauto; discriminate. }
      unfold getBrowser. cbv zeta. rewrite Ht. simpl negb. cbv iota.
      now rewrite Hf, He, Hc, Hs, Ho.
  - intros Hc Hf He. unfold getBrowser. cbv zeta.
    rewrite (includes_nonempty _ _ Hc); [|discriminate]. simpl negb. cbv iota.
    now rewrite Hf, He, Hc.
Qed.

Lemma getBrowser_opera_after_chrome_witness :
  getBrowser "Mozilla/5.0 (X11; Linux x86_64) Chrome/120.0 Safari/537.36 OPR/106.0" = "Chrome".
Proof.
  apply (getBrowser_opera_after_chrome
           "Mozilla/5.0 (X11; Linux x86_64) Chrome/120.0 Safari/537.36 OPR/106.0");
    reflexivity.
Defined.

(** ** Client identity resolver, continued *)

(** X4: with a non-empty forwarded-for header the resolved address is the
    header's text before its first comma, trimmed: it holds no comma and no
    white space at either end, and the connection's addresses play no part.
    For a header [first,rest] whose first entry holds no comma it is that
    entry, trimmed. *)
Theorem getClientIP_forwarded_first (req : Request) (forwarded : string) :
  headers req "x-forwarded-for" = Some forwarded ->
  forwarded <> "" ->
  getClientIP req = JsString.trim (JsString.split_first "," forwarded) /\
  JsString.includes (getClientIP req) "," = false /\
  trimmed (getClientIP req) /\
  (forall first rest,
     forwarded = (first ++ String "," rest)%string ->
     JsString.includes first "," = false ->
     getClientIP req = JsString.trim first).
Proof.
  intros Hh Hne.
  assert (Hip : getClientIP req = JsString.trim (JsString.split_first "," forwarded)).
  { unfold getClientIP. rewrite Hh.
    destruct (JsString.truthy forwarded) eqn:Ht; [reflexivity|].
    now apply truthy_false in Ht. }
  split; [exact Hip|]. rewrite Hip. split; [|split].
  - unfold JsString.trim.
    apply trimEnd_keeps_absence, trimStart_keeps_absence, split_first_has_no_sep.
  - unfold trimmed. apply trim_idem.
  - intros first rest -> Hfirst. now rewrite split_first_app.
Qed.

Lemma getClientIP_forwarded_first_witness :
  getClientIP (request_for "abc123") = "8.8.8.8".
Proof.
  destruct (getClientIP_forwarded_first (request_for "abc123") "8.8.8.8, 10.0.0.1")
    as (_ & _ & _ & Hfirst).
  - reflexivity.
  - discriminate.
  - apply (Hfirst "8.8.8.8" " 10.0.0.1"); reflexivity.
Defined.

Lemma or_else_nonempty (v : option string) (fallback : string) :
  fallback <> "" -> JsString.or_else v fallback <> "".
Proof.
  intros Hf. destruct v as [s|]; simpl; [|exact Hf].
  destruct (JsString.truthy s) eqn:Hs; [now apply truthy_true | exact Hf].
Qed.

(** X5: without a forwarded-for header, or with an empty one, the resolved
    address is never empty: it is the first non-empty one of the connection
    address, the socket address and [req.ip], and "Unknown" when there is
    none. *)
Theorem getClientIP_fallback (req : Request) :
  headers req "x-forwarded-for" = None \/ headers req "x-forwarded-for" = Some "" ->
  getClientIP req <> "" /\
  getClientIP req =
    JsString.or_else (connection_remoteAddress req)
      (JsString.or_else (socket_remoteAddress req)
         (JsString.or_else (req_ip req) "Unknown")) /\
  (JsString.or_else (connection_remoteAddress req) "" = "" ->
   JsString.or_else (socket_remoteAddress req) "" = "" ->
   JsString.or_else (req_ip req) "" = "" ->
   getClientIP req = "Unknown").
Proof.
  intros Hh.
  assert (Hip : getClientIP req =
                JsString.or_else (connection_remoteAddress req)
                  (JsString.or_else (socket_remoteAddress req)
                     (JsString.or_else (req_ip req) "Unknown"))).
  { unfold getClientIP. destruct Hh as [-> | ->]; reflexivity. }
  split; [|split; [exact Hip|]].
  - rewrite Hip. repeat apply or_else_nonempty. discriminate.
  - rewrite Hip. clear.
    destruct (connection_remoteAddress req) as [a|];
      destruct (socket_remoteAddress req) as [b|];
      destruct (req_ip req) as [c|]; simpl;
      repeat match goal with
             | |- context [JsString.truthy ?s] => destruct (JsString.truthy s) eqn:?
             end; intros; subst; try reflexivity;
      match goal with
      | H : JsString.truthy "" = true |- _ => discriminate H
      end.
Qed.

Lemma getClientIP_fallback_witness :
  getClientIP (request_local "abc123") = "192.168.1.5" /\
  getClientIP (request_local "abc123") <> "".
Proof.
  destruct (getClientIP_fallback (request_local "abc123")) as (Hne & Hip & _).
  - left. reflexivity.
  - split; [exact Hip | exact Hne].
Defined.

(** ** Redirect route, continued *)

Lemma count_responses_app (a b : list Event) :
  count_responses (a ++ b) = count_responses a + count_responses b.
Proof. unfold count_responses. now rewrite filter_app, length_app. Qed.

Lemma count_responses_none (l : list Event) :
  existsb is_response l = false -> count_responses l = 0.
Proof.
  unfold count_responses. induction l as [|ev l IH]; simpl; [reflexivity|].
  intros H. apply orb_false_iff in H as [Hev Hl]. rewrite Hev. now apply IH.
Qed.

Lemma lookup_events_no_response (l : list Event) :
  forallb is_lookup_event l = true -> existsb is_response l = false.
Proof.
  apply existsb_excluded. intros [[]| [] ?| | |]; simpl; congruence.
Qed.

Lemma before_redirect_no_response (req : Request) :
  existsb is_response
    (resolved_events (params_shortCode req) ++ lookup_started req) = false.
Proof.
  unfold lookup_started. destruct (is_local_ip (getClientIP req)); reflexivity.
Qed.

(** The trace of a request that resolved a link holds one response. *)
Lemma redirect_hit_one_response (w : World) (req : Request) (u : Url.t) (g : Geo)
    (rest : list Event) :
  forallb is_lookup_event rest = true ->
  count_responses
    ((resolved_events (params_shortCode req) ++ lookup_started req) ++
     [Responded (reply_redirect req u)] ++ rest ++
     save_click_events w (click_of req u g)) = 1.
Proof.
  intros Hrest. rewrite count_responses_app.
  rewrite (count_responses_none _ (before_redirect_no_response req)).
  rewrite !count_responses_app.
  rewrite (count_responses_none _ (lookup_events_no_response _ Hrest)).
  rewrite (count_responses_none _
             (proj1 (save_click_events_quiet w (click_of req u g)))).
  reflexivity.
Qed.

(** X6: in every world the redirect route writes exactly one response, with
    status 302, 404 or 500: 500 exactly when the segment is not "api" and the
    store rejects the query, 302 exactly when the segment is not "api" and
    the store answers with a link. *)
Theorem redirect_answers_once (w : World) (req : Request) (d : Db) :
  count_responses (trace (serve w (redirect_handler req) d)) = 1 /\
  exists r,
    response_of (trace (serve w (redirect_handler req) d)) = Some r /\
    (status r = 302 \/ status r = 404 \/ status r = 500) /\
    (status r = 500 <->
     params_shortCode req <> "api" /\ ~ store_answers w (params_shortCode req)) /\
    (status r = 302 <->
     params_shortCode req <> "api" /\ store_answers w (params_shortCode req) /\
     exists u, resolve (urls d) (params_shortCode req) = Some u).
Proof.
  unfold store_answers.
  destruct (String.eqb_spec (params_shortCode req) "api") as [Hs|Hs].
  { rewrite (redirect_serve_api w req d Hs). simpl. split; [reflexivity|].
    eexists. split; [reflexivity|]. simpl.
    split; [auto|]. split; split.
    - discriminate.
    - intros [H _]. now destruct H.
    - discriminate.
    - intros [H _]. now destruct H. }
  destruct (rejects w (OpUrlFindOne (short_or_custom (params_shortCode req))))
    as [e|] eqn:Hw.
  { rewrite (redirect_serve_store_error w req d e Hs Hw). simpl.
    split; [reflexivity|]. eexists. split; [reflexivity|]. simpl.
    split; [auto|]. split; split.
    - intros _. split; [exact Hs | discriminate].
    - reflexivity.
    - discriminate.
    - intros (_ & H & _). discriminate H. }
  destruct (resolve (urls d) (params_shortCode req)) as [u|] eqn:Hr.
  - destruct (redirect_serve_hit w req d u Hs Hw Hr) as (rest & Hrest & Hrun).
    rewrite Hrun. simpl trace.
    split; [now apply redirect_hit_one_response|].
    exists (reply_redirect req u). split.
    { apply (response_of_first _ _ (reply_redirect req u)), before_redirect_quiet. }
    simpl. split; [auto|]. split; split.
    + discriminate.
    + intros [_ H]. now destruct H.
    + intros _. split; [exact Hs|]. split; [reflexivity | now exists u].
    + reflexivity.
  - rewrite (redirect_serve_miss w req d Hs Hw Hr). simpl.
    split; [reflexivity|]. eexists. split; [reflexivity|]. simpl.
    split; [auto|]. split; split.
    + discriminate.
    + intros [_ H]. now destruct H.
    + discriminate.
    + intros (_ & _ & u & Hu). discriminate Hu.
Qed.

Lemma redirect_answers_once_witness :
  exists r,
    response_of (trace (serve world_image_down (redirect_handler (request_for "mysite"))
                          db_sample)) = Some r /\
    status r = 302.
Proof.
  destruct (redirect_answers_once world_image_down (request_for "mysite") db_sample)
    as (_ & r & Hr & _ & _ & H302).
  exists r. split; [exact Hr|]. apply H302.
  split; [discriminate|]. split; [reflexivity|]. now exists link_abc123.
Defined.

(** X8: requests are not deduplicated. The same request served [n] times in
    a row, the store answering and accepting the inserts, adds [n] equal
    clicks and leaves the links alone. *)
Theorem redirect_repeated (w : World) (req : Request) (d : Db) (u : Url.t) (n : nat) :
  params_shortCode req <> "api" ->
  store_answers w (params_shortCode req) ->
  resolve (urls d) (params_shortCode req) = Some u ->
  rejects w (OpClickCreate (click_of req u (located w (getClientIP req)))) = None ->
  Nat.iter n (fun d' => db (serve w (redirect_handler req) d')) d =
  {| urls := urls d;
     clicks := clicks d ++ repeat (click_of req u (located w (getClientIP req))) n |}.
Proof.
  intros Hs Hw Hr Hok. induction n as [|n IH].
  - simpl. rewrite app_nil_r. now destruct d.
  - simpl Nat.iter. rewrite IH.
    destruct (redirect_serve_hit w req
                {| urls := urls d;
                   clicks := clicks d ++
                             repeat (click_of req u (located w (getClientIP req))) n |}
                u Hs Hw Hr) as (rest & _ & Hrun).
    rewrite Hrun. simpl db. unfold save_click_db. rewrite Hok. simpl.
    f_equal. rewrite <- app_assoc. f_equal.
    change [click_of req u (located w (getClientIP req))] with
      (repeat (click_of req u (located w (getClientIP req))) 1).
    rewrite <- repeat_app. now rewrite Nat.add_1_r.
Qed.

Lemma redirect_repeated_witness :
  length (clicks (Nat.iter 3
                    (fun d' => db (serve world_calm (redirect_handler (request_for "abc123")) d'))
                    db_sample)) = 6.
Proof.
  rewrite (redirect_repeated world_calm (request_for "abc123") db_sample link_abc123 3).
  - reflexivity.
  - discriminate.
  - reflexivity.
  - reflexivity.
  - reflexivity.
Defined.

(** ** Lookup endpoint, continued *)

Lemma lookup_serve_store_error (w : World) (req : Request) (d : Db) (e : JsError) :
  rejects w (OpUrlFindOne (short_or_custom (params_shortCode req))) = Some e ->
  serve w (lookup_handler req) d =
  {| db := d;
     trace := [Issued (OpUrlFindOne (short_or_custom (params_shortCode req)));
               Settled (OpUrlFindOne (short_or_custom (params_shortCode req))) false;
               Logged "Lookup error:";
               Responded {| status := 500; location := None;
                            payload := JsonMessage false
                              (JsString.or_else (Some (error_message e))
                                 "Error looking up URL") |}] |}.
Proof.
  intros Hw. unfold serve, lookup_handler.
  cbn. unfold settle. rewrite Hw. reflexivity.
Qed.

(** X9: in every world the lookup endpoint only reads: the store is left as
    it was, the only call made is the query of the link collection (no click
    is created, no request is sent to the provider), and exactly one
    response is written, with status 200, 404 or 500, 500 exactly when the
    store rejects the query. *)
Theorem lookup_reads_only (w : World) (req : Request) (d : Db) :
  db (serve w (lookup_handler req) d) = d /\
  existsb is_other_call (trace (serve w (lookup_handler req) d)) = false /\
  count_responses (trace (serve w (lookup_handler req) d)) = 1 /\
  exists r,
    response_of (trace (serve w (lookup_handler req) d)) = Some r /\
    (status r = 200 \/ status r = 404 \/ status r = 500) /\
    (status r = 500 <-> ~ store_answers w (params_shortCode req)).
Proof.
  unfold store_answers.
  destruct (rejects w (OpUrlFindOne (short_or_custom (params_shortCode req))))
    as [e|] eqn:Hw.
  - rewrite (lookup_serve_store_error w req d e Hw). simpl.
    repeat split; auto. eexists. split; [reflexivity|]. simpl.
    split; [auto|]. split; [discriminate | reflexivity].
  - rewrite (lookup_serve w req d Hw). simpl.
    repeat split; auto. eexists. split; [reflexivity|].
    destruct (resolve (urls d) (params_shortCode req)); simpl;
      (split; [auto|]); split; try discriminate; intros H; now destruct H.
Qed.

Lemma lookup_reads_only_witness :
  exists r,
    response_of (trace (serve world_calm (lookup_handler (request_for "api")) db_sample))
    = Some r /\ (status r = 500 -> False).
Proof.
  destruct (lookup_reads_only world_calm (request_for "api") db_sample)
    as (_ & _ & _ & r & Hr & _ & H500).
  exists r. split; [exact Hr|]. intros H. now apply H500.
Defined.

Lemma response_of_resolved (shortCode : string) (r : Reply) :
  response_of (resolved_events shortCode ++ [Responded r]) = Some r.
Proof. reflexivity. Qed.

(** X10: the two public routes resolve alike. For a segment other than "api"
    and a store that answers, the redirect route sends a 302 exactly when the
    lookup endpoint answers 200, and its Location is then what [res.redirect]
    makes of the [original_url] the lookup endpoint reports; the one answers
    404 exactly when the other does. The lookup endpoint has no reserved
    segment: it resolves "api" like any other. *)
Theorem lookup_agrees_with_redirect (w : World) (req : Request) (d : Db) :
  store_answers w (params_shortCode req) ->
  (params_shortCode req <> "api" ->
   (forall address,
      response_of (trace (serve w (redirect_handler req) d)) =
        Some {| status := 302; location := Some address; payload := RedirectNotice |} <->
      exists id target,
        response_of (trace (serve w (lookup_handler req) d)) =
          Some {| status := 200; location := None; payload := JsonLookup id target |} /\
        address = res_location req target) /\
   ((exists r, response_of (trace (serve w (redirect_handler req) d)) = Some r /\
               status r = 404) <->
    (exists r, response_of (trace (serve w (lookup_handler req) d)) = Some r /\
               status r = 404)))
  /\ (forall u,
        resolve (urls d) (params_shortCode req) = Some u ->
        response_of (trace (serve w (lookup_handler req) d)) =
        Some {| status := 200; location := None;
                payload := JsonLookup (Url._id u) (Url.originalUrl u) |}).
Proof.
  intros Hw. split.
  - intros Hs. rewrite (lookup_serve w req d Hw). cbn [trace].
    rewrite !response_of_resolved.
    destruct (resolve (urls d) (params_shortCode req)) as [u|] eqn:Hr.
    + destruct (redirect_serve_hit w req d u Hs Hw Hr) as (rest & _ & Hrun).
      assert (Hresp : response_of (trace (serve w (redirect_handler req) d)) =
                      Some (reply_redirect req u)).
      { rewrite Hrun.
        apply (response_of_first _ _ (reply_redirect req u)), before_redirect_quiet. }
      rewrite Hresp. unfold reply_redirect. split.
      * intros address. split.
        -- intros H. injection H as <-. now exists (Url._id u), (Url.originalUrl u).
        -- intros (id & target & H & ->). injection H as _ <-. reflexivity.
      * split; intros (r & Hr' & H404); injection Hr' as <-; discriminate H404.
    + rewrite (redirect_serve_miss w req d Hs Hw Hr). simpl. split.
      * intros address. split; [discriminate|]. intros (id & target & H & _). discriminate H.
      * split; intros _; eexists; split; reflexivity.
  - intros u Hr. rewrite (lookup_serve w req d Hw). simpl. now rewrite Hr.
Qed.

Lemma lookup_agrees_with_redirect_witness :
  response_of (trace (serve world_calm (lookup_handler (request_for "api")) db_sample)) =
  Some {| status := 200; location := None;
          payload := JsonLookup 2 "https://example.com/docs" |}.
Proof.
  destruct (lookup_agrees_with_redirect world_calm (request_for "api") db_sample)
    as (_ & Hany).
  - reflexivity.
  - apply (Hany link_alias_api). reflexivity.
Defined.

(** ** Delete route, continued *)

Lemma delete_serve_miss (w : World) (req : Request) (d : Db) :
  rejects w (OpUrlFindOne (owned_by_id req)) = None ->
  find (satisfies (owned_by_id req)) (urls d) = None ->
  serve w (delete_handler req) d =
  {| db := d;
     trace := [Issued (OpUrlFindOne (owned_by_id req));
               Settled (OpUrlFindOne (owned_by_id req)) true;
               Responded {| status := 404; location := None;
                            payload := JsonMessage false "URL not found" |}] |}.
Proof.
  intros Hq Hf. unfold serve, delete_handler.
  cbn -[satisfies]. unfold settle. fold (owned_by_id req). rewrite Hq.
  cbn -[satisfies]. rewrite Hf. reflexivity.
Qed.

(** The caller's link is found: what is deleted, and the status, by the
    first call that is rejected. *)
Lemma delete_serve_found (w : World) (req : Request) (d : Db) (u : Url.t) :
  rejects w (OpUrlFindOne (owned_by_id req)) = None ->
  find (satisfies (owned_by_id req)) (urls d) = Some u ->
  db (serve w (delete_handler req) d) =
    (if JsString.truthy (Url.qrPublicId u) && fails w (OpDeleteImage (Url.qrPublicId u))
     then d
     else if fails w (OpClickDeleteMany (Url._id u)) then d
     else if fails w (OpUrlDeleteOne (Url._id u))
          then {| urls := urls d; clicks := clicks_without (Url._id u) (clicks d) |}
          else {| urls := remove_first_by_id (Url._id u) (urls d);
                  clicks := clicks_without (Url._id u) (clicks d) |}) /\
  exists r,
    response_of (trace (serve w (delete_handler req) d)) = Some r /\
    status r =
      (if (JsString.truthy (Url.qrPublicId u) && fails w (OpDeleteImage (Url.qrPublicId u)))
          || fails w (OpClickDeleteMany (Url._id u))
          || fails w (OpUrlDeleteOne (Url._id u))
       then 500 else 200).
Proof.
  intros Hq Hf. unfold serve, delete_handler, fails, clicks_without.
  cbn -[satisfies]. unfold settle. fold (owned_by_id req). rewrite Hq.
  cbn -[satisfies]. rewrite Hf.
  destruct (JsString.truthy (Url.qrPublicId u)) eqn:Hqr; cbn; unfold settle.
  - destruct (rejects w (OpDeleteImage (Url.qrPublicId u))) as [e|]; cbn;
      [split; [reflexivity | eexists; split; reflexivity]|].
    unfold settle.
    destruct (rejects w (OpClickDeleteMany (Url._id u))) as [e|]; cbn;
      [split; [reflexivity | eexists; split; reflexivity]|].
    unfold settle.
    destruct (rejects w (OpUrlDeleteOne (Url._id u))) as [e|]; cbn;
      split; try reflexivity; eexists; split; reflexivity.
  - destruct (rejects w (OpClickDeleteMany (Url._id u))) as [e|]; cbn;
      [split; [reflexivity | eexists; split; reflexivity]|].
    unfold settle.
    destruct (rejects w (OpUrlDeleteOne (Url._id u))) as [e|]; cbn;
      split; try reflexivity; eexists; split; reflexivity.
Qed.

Lemma remove_first_subset (id : ObjectId) (docs : list Url.t) (u : Url.t) :
  In u (remove_first_by_id id docs) -> In u docs.
Proof.
  induction docs as [|v docs IH]; simpl; [auto|].
  destruct (Nat.eqb (Url._id v) id); [auto|].
  intros [H|H]; auto.
Qed.

Lemma same_id_same_link (docs : list Url.t) (u v : Url.t) :
  NoDup (map Url._id docs) -> In u docs -> In v docs -> Url._id u = Url._id v -> u = v.
Proof.
  induction docs as [|x docs IH]; simpl; [intros _ []|].
  intros Hnd Hu Hv Hid. inversion Hnd as [|? ? Hx Hnd']; subst.
  destruct Hu as [->|Hu]; destruct Hv as [->|Hv]; auto.
  - destruct Hx. rewrite Hid. now apply in_map.
  - destruct Hx. rewrite <- Hid. now apply in_map.
Qed.

Lemma remove_first_unique (id : ObjectId) (docs : list Url.t) (u : Url.t) :
  NoDup (map Url._id docs) -> In u (remove_first_by_id id docs) -> Url._id u <> id.
Proof.
  induction docs as [|v docs IH]; simpl; [intros _ []|].
  intros Hnd Hin. inversion Hnd as [|? ? Hv Hnd']; subst.
  destruct (Nat.eqb_spec (Url._id v) id) as [Heq|Hne].
  - intros Hu. destruct Hv. rewrite Heq, <- Hu. now apply in_map.
  - destruct Hin as [<-|Hin]; [exact Hne | now apply IH].
Qed.

Lemma find_none_by_id (req : Request) (docs : list Url.t) :
  (forall u, In u docs -> Url._id u <> params_id req) ->
  find (satisfies (owned_by_id req)) docs = None.
Proof.
  intros Hno. destruct (find (satisfies (owned_by_id req)) docs) as [u|] eqn:Hf;
    [|reflexivity].
  destruct (owned_by_id_sound _ _ _ Hf) as (Hin & Hid & _). now destruct (Hno u Hin).
Qed.

(** X11: in every world the delete route touches one link at most: links
    with another id and clicks of another link are in the store afterwards
    exactly if they were before, and, the ids being distinct, a link that is
    not the caller's is never removed. *)
Theorem delete_touches_one_link (w : World) (req : Request) (d : Db) :
  (forall u, Url._id u <> params_id req ->
             (In u (urls (db (serve w (delete_handler req) d))) <-> In u (urls d)))
  /\ (forall c, Click.urlId c <> params_id req ->
                (In c (clicks (db (serve w (delete_handler req) d))) <-> In c (clicks d)))
  /\ (ids_unique d ->
      forall u, In u (urls d) -> Url.userId u <> user_id req ->
                In u (urls (db (serve w (delete_handler req) d)))).
Proof.
  destruct (delete_serve_cases w req d) as (rt & -> & Hcases).
  destruct Hcases as [(Hdb & _) | [(u0 & Hf & Hdb & _) | (u0 & Hf & Hdb & _)]];
    rewrite Hdb; simpl.
  - repeat split; auto.
  - destruct (owned_by_id_sound _ _ _ Hf) as (_ & Hid & _). rewrite Hid.
    repeat split; auto.
    + intros Hc. now apply delete_many_clears in Hc.
    + intros Hc. apply filter_In. split; [exact Hc|].
      apply negb_true_iff. now apply Nat.eqb_neq.
  - destruct (owned_by_id_sound _ _ _ Hf) as (Hin0 & Hid & Hown). rewrite Hid.
    split; [|split].
    + intros u Hu. split; [apply remove_first_subset|].
      intros Hin. now apply remove_first_keeps_other.
    + intros c Hc. split.
      * intros H. now apply delete_many_clears in H.
      * intros H. apply filter_In. split; [exact H|].
        apply negb_true_iff. now apply Nat.eqb_neq.
    + intros Huniq u Hin Hother. apply remove_first_keeps_other; [exact Hin|].
      intros Hu. apply Hother. rewrite <- Hown. f_equal.
      apply (same_id_same_link (urls d)); auto. congruence.
Qed.

Lemma delete_touches_one_link_witness :
  In link_alias_api
     (urls (db (serve world_calm (delete_handler (request_for "abc123")) db_sample))) /\
  In (click_on 2)
     (clicks (db (serve world_calm (delete_handler (request_for "abc123")) db_sample))).
Proof.
  destruct (delete_touches_one_link world_calm (request_for "abc123") db_sample)
    as (Hlinks & Hclicks & _).
  split.
  - apply Hlinks; [discriminate | right; now left].
  - apply Hclicks; [discriminate | right; now left].
Defined.

(** X12: after a delete that answered 200, in a store with distinct ids, no
    link with that id is left, the same delete repeated answers 404 and
    changes nothing, and the deleted link's short code no longer resolves
    (codes and aliases resolving to one link at most). *)
Theorem delete_then_gone (w : World) (req : Request) (d : Db) (r : Reply) :
  ids_unique d ->
  response_of (trace (serve w (delete_handler req) d)) = Some r ->
  status r = 200 ->
  (forall u, In u (urls (db (serve w (delete_handler req) d))) ->
             Url._id u <> params_id req)
  /\ (forall w',
        rejects w' (OpUrlFindOne (owned_by_id req)) = None ->
        db (serve w' (delete_handler req) (db (serve w (delete_handler req) d))) =
          db (serve w (delete_handler req) d) /\
        response_of
          (trace (serve w' (delete_handler req) (db (serve w (delete_handler req) d)))) =
        Some {| status := 404; location := None;
                payload := JsonMessage false "URL not found" |})
  /\ (forall u,
        find (satisfies (owned_by_id req)) (urls d) = Some u ->
        lookup_unambiguous (urls d) ->
        resolve (urls (db (serve w (delete_handler req) d))) (Url.shortUrl u) = None).
Proof.
  intros Huniq Hr Hs.
  destruct (delete_serve_cases w req d) as (rt & Hrt & Hcases).
  rewrite Hrt in *.
  destruct Hcases as [(_ & (r0 & Hr0 & Hs0) & _)
                     | [(u0 & _ & _ & (r0 & Hr0 & Hs0) & _) | (u0 & Hf & Hdb & _)]];
    try congruence.
  destruct (owned_by_id_sound _ _ _ Hf) as (Hin0 & Hid & _).
  assert (Hgone : forall u, In u (urls (db rt)) -> Url._id u <> params_id req).
  { rewrite Hdb. simpl. rewrite Hid. intros u. now apply remove_first_unique. }
  split; [exact Hgone|]. split.
  - intros w' Hq.
    rewrite (delete_serve_miss w' req (db rt) Hq (find_none_by_id req _ Hgone)).
    split; reflexivity.
  - intros u Hu Hamb. rewrite Hf in Hu. injection Hu as <-.
    apply resolve_none. intros u' Hin' Hm.
    apply (Hgone u' Hin'). rewrite <- Hid. f_equal.
    apply (Hamb (Url.shortUrl u0)).
    + rewrite Hdb in Hin'. simpl in Hin'. now apply remove_first_subset in Hin'.
    + exact Hin0.
    + exact Hm.
    + now left.
Qed.

Lemma db_sample_ids_unique : ids_unique db_sample.
Proof.
  unfold ids_unique. simpl. repeat constructor; simpl; intuition discriminate.
Qed.

Lemma delete_then_gone_witness :
  resolve (urls (db (serve world_calm (delete_handler (request_for "abc123")) db_sample)))
    "abc123" = None.
Proof.
  destruct (delete_then_gone world_calm (request_for "abc123") db_sample
              {| status := 200; location := None;
                 payload := JsonMessage true "URL deleted successfully" |}
              db_sample_ids_unique)
    as (_ & _ & Hcode).
  - reflexivity.
  - reflexivity.
  - apply (Hcode link_abc123); [reflexivity | exact db_sample_unambiguous].
Defined.

(** X13: the delete route works in three steps and stops at the first call
    that is rejected, answering 500. When the image service or the deletion
    of the clicks fails, nothing has been deleted; when only the removal of
    the link fails, the link is kept although its clicks are gone. *)
Theorem delete_stops_at_first_failure (w : World) (req : Request) (d : Db) (u : Url.t) :
  rejects w (OpUrlFindOne (owned_by_id req)) = None ->
  find (satisfies (owned_by_id req)) (urls d) = Some u ->
  ((JsString.truthy (Url.qrPublicId u) && fails w (OpDeleteImage (Url.qrPublicId u)))
     || fails w (OpClickDeleteMany (Url._id u)) = true ->
   db (serve w (delete_handler req) d) = d /\
   exists r, response_of (trace (serve w (delete_handler req) d)) = Some r /\
             status r = 500)
  /\ ((JsString.truthy (Url.qrPublicId u) && fails w (OpDeleteImage (Url.qrPublicId u)))
        || fails w (OpClickDeleteMany (Url._id u)) = false ->
      fails w (OpUrlDeleteOne (Url._id u)) = true ->
      db (serve w (delete_handler req) d) =
        {| urls := urls d; clicks := clicks_without (Url._id u) (clicks d) |} /\
      In u (urls (db (serve w (delete_handler req) d))) /\
      exists r, response_of (trace (serve w (delete_handler req) d)) = Some r /\
                status r = 500).
Proof.
  intros Hq Hf.
  destruct (delete_serve_found w req d u Hq Hf) as (Hdb & r & Hr & Hs).
  destruct (owned_by_id_sound _ _ _ Hf) as (Hin & _ & _).
  split.
  - intros Hfail. apply orb_true_iff in Hfail.
    split.
    + rewrite Hdb. destruct Hfail as [-> | Hm]; [reflexivity|].
      rewrite Hm. now destruct (_ && _).
    + exists r. split; [exact Hr|]. rewrite Hs.
      destruct Hfail as [-> | Hm]; [reflexivity|].
      rewrite Hm. now rewrite orb_true_r.
  - intros Hok Hone. apply orb_false_iff in Hok as [Hi Hm].
    rewrite Hdb, Hi, Hm, Hone. simpl.
    split; [reflexivity|]. split; [exact Hin|].
    exists r. split; [exact Hr|]. rewrite Hs, Hi, Hm, Hone. reflexivity.
Qed.

Lemma delete_stops_at_first_failure_witness :
  db (serve world_image_down (delete_handler request_delete_3) db_with_qr) = db_with_qr /\
  db (serve world_delete_one_fails (delete_handler request_delete_3) db_with_qr) =
  {| urls := [link_with_qr]; clicks := [click_on 9] |}.
Proof.
  split.
  - apply (delete_stops_at_first_failure world_image_down request_delete_3 db_with_qr
             link_with_qr); reflexivity.
  - apply (delete_stops_at_first_failure world_delete_one_fails request_delete_3
             db_with_qr link_with_qr); reflexivity.
Defined.

(** ** Redirect route and the requests around it *)

Section Overlap.

Variable w : World.

(** Starting a chain appends to the trace; what it parks does not depend on
    the runtime. *)
Lemma start_appends (job : Task unit) :
  exists ps evs,
    forall d t, start job {| db := d; trace := t |} =
                (ps, {| db := d; trace := t ++ evs |}).
Proof.
  induction job as [a|e|ev k IH|op k IH|k IH|j k IH].
  - exists [], []. intros d t. simpl. now rewrite app_nil_r.
  - exists [], [UnhandledRejection e]. reflexivity.
  - destruct IH as (ps & evs & H). exists ps, (ev :: evs). intros d t.
    simpl. unfold emit. simpl. rewrite H. now rewrite <- app_assoc.
  - exists [AtAwait op k], [Issued op]. reflexivity.
  - exists [AtReaction k], []. intros d t. simpl. now rewrite app_nil_r.
  - destruct j.
Qed.

Lemma report_appends {A} (out : Completion A) (d : Db) :
  exists evs, forall t, report out {| db := d; trace := t |} =
                        {| db := d; trace := t ++ evs |}.
Proof.
  destruct out as [a|e].
  - exists []. intros t. simpl. now rewrite app_nil_r.
  - exists [UnhandledRejection e]. reflexivity.
Qed.

Lemma resume_appends (p : Parked) (d : Db) :
  exists d' evs,
    forall t, resume w p {| db := d; trace := t |} = {| db := d'; trace := t ++ evs |}.
Proof.
  destruct p as [op k|k]; simpl.
  - destruct (settle_appends w op d) as (r1 & d1 & ok & Hs).
    destruct (run_task_appends w (k r1) d1) as (out & d' & evs & Hk).
    destruct (report_appends out d') as (evr & Hr).
    exists d', (Settled op ok :: evs ++ evr). intros t.
    rewrite Hs, Hk, Hr. now rewrite <- !app_assoc.
  - destruct (run_task_appends w k d) as (out & d' & evs & Hk).
    destruct (report_appends out d') as (evr & Hr).
    exists d', (evs ++ evr). intros t. rewrite Hk, Hr. now rewrite <- !app_assoc.
Qed.

Lemma resume_all_appends (ps : list Parked) :
  forall d, exists d' evs,
    forall t, fold_left (fun rt p => resume w p rt) ps {| db := d; trace := t |} =
              {| db := d'; trace := t ++ evs |}.
Proof.
  induction ps as [|p ps IH]; intros d.
  - exists d, []. intros t. simpl. now rewrite app_nil_r.
  - destruct (resume_appends p d) as (d1 & evs1 & H1).
    destruct (IH d1) as (d' & evs & H).
    exists d', (evs1 ++ evs). intros t. simpl. rewrite H1, H. now rewrite <- app_assoc.
Qed.

Lemma run_start_appends {A} (p : Js (Task unit) A) :
  forall d, exists out d' evs ps,
    forall t, run start w p {| db := d; trace := t |} =
              (out, {| db := d'; trace := t ++ evs |}, ps).
Proof.
  induction p as [a|e|ev k IH|op k IH|k IH|job k IH]; intros d.
  - exists (Normal a), d, [], []. intros t. simpl. now rewrite app_nil_r.
  - exists (Thrown e), d, [], []. intros t. simpl. now rewrite app_nil_r.
  - destruct (IH d) as (out & d' & evs & ps & H).
    exists out, d', (ev :: evs), ps. intros t. simpl. unfold emit. simpl.
    rewrite H. now rewrite <- app_assoc.
  - destruct (settle_appends w op d) as (r1 & d1 & ok & Hs).
    destruct (IH r1 d1) as (out & d' & evs & ps & H).
    exists out, d', (Issued op :: Settled op ok :: evs), ps. intros t. simpl.
    unfold emit. simpl. rewrite Hs, H. now rewrite <- !app_assoc.
  - destruct (IH d) as (out & d' & evs & ps & H).
    exists out, d', evs, ps. intros t. simpl. apply H.
  - destruct (start_appends job) as (ps1 & evs1 & Hstart).
    destruct (IH d) as (out & d' & evs & ps & H).
    exists out, d', (evs1 ++ evs), (ps1 ++ ps). intros t. simpl.
    rewrite Hstart, H. now rewrite <- app_assoc.
Qed.

(** What a request does to the store does not depend on what the trace
    holds when it starts. *)
Lemma serve_on_db (h : Handler) (d : Db) (t : list Event) :
  db (serve_on w h {| db := d; trace := t |}) = db (serve w h d).
Proof.
  unfold serve_on, serve.
  destruct (run_start_appends h d) as (out & d1 & evs & ps & H).
  rewrite (H t), (H []).
  destruct (report_appends out d1) as (evr & Hr). rewrite !Hr.
  destruct (resume_all_appends ps d1) as (d' & evs' & Hall). now rewrite !Hall.
Qed.

(** The synchronous part of a redirect that resolves a link. *)
Lemma redirect_run_hit (req : Request) (d : Db) (u : Url.t) :
  params_shortCode req <> "api" ->
  store_answers w (params_shortCode req) ->
  resolve (urls d) (params_shortCode req) = Some u ->
  run start w (redirect_handler req) {| db := d; trace := [] |} =
  (Normal tt,
   {| db := d;
      trace := (resolved_events (params_shortCode req) ++ lookup_started req) ++
               [Responded (reply_redirect req u)] |},
   fst (start (locate_and_save req u)
          {| db := d; trace := resolved_events (params_shortCode req) |})).
Proof.
  intros Hs Hr Hf. apply String.eqb_neq in Hs.
  destruct (locate_and_save_start req u d (resolved_events (params_shortCode req)))
    as (p & Hp).
  rewrite Hp. simpl fst.
  unfold redirect_handler. rewrite Hs.
  cbn -[getGeolocation start]. unfold settle. rewrite Hr.
  cbn -[getGeolocation start satisfies short_or_custom].
  unfold resolve in Hf. rewrite Hf.
  cbn -[getGeolocation start].
  change (start _ _) with
    (start (locate_and_save req u)
       {| db := d; trace := resolved_events (params_shortCode req) |}).
  rewrite Hp. reflexivity.
Qed.

(** For an address that is looked up, the chain it leaves waits for the
    provider. *)
Lemma locate_and_save_waits (req : Request) (u : Url.t) (rt : Runtime) :
  is_local_ip (getClientIP req) = false ->
  exists p, fst (start (locate_and_save req u) rt) = [p] /\ waits_for_call p = true.
Proof.
  intros Hl. unfold locate_and_save, getGeolocation. rewrite Hl. cbn.
  eexists. split; reflexivity.
Qed.

(** Resumed on any runtime, that chain inserts its click into the store it
    finds; the link is not looked up again. *)
Lemma locate_and_save_resumed_db (req : Request) (u : Url.t) (p : Parked)
    (rt0 rt : Runtime) :
  fst (start (locate_and_save req u) rt0) = [p] ->
  db (resume w p rt) =
  save_click_db w (click_of req u (located w (getClientIP req))) (db rt).
Proof.
  intros Hp. destruct rt as [d t]. destruct rt0 as [d0 t0].
  destruct (start_appends (locate_and_save req u)) as (ps & evs & Hstart).
  rewrite Hstart in Hp. simpl in Hp. subst ps.
  destruct (locate_and_save_resumed w req u d [] []) as (rest & _ & Hres).
  rewrite Hstart in Hres. simpl fst in Hres. simpl fold_left in Hres.
  destruct (resume_appends p d) as (d' & evs' & Hrs).
  rewrite Hrs in Hres. rewrite Hrs. simpl.
  now injection Hres as ->.
Qed.

Lemma redirect_overlapping_db (req : Request) (second : Handler) (d : Db) (u : Url.t) :
  params_shortCode req <> "api" ->
  store_answers w (params_shortCode req) ->
  resolve (urls d) (params_shortCode req) = Some u ->
  is_local_ip (getClientIP req) = false ->
  db (serve_overlapping w (redirect_handler req) second d) =
  save_click_db w (click_of req u (located w (getClientIP req))) (db (serve w second d)).
Proof.
  intros Hs Hw Hr Hl. unfold serve_overlapping.
  rewrite (redirect_run_hit req d u Hs Hw Hr).
  destruct (locate_and_save_waits req u
              {| db := d; trace := resolved_events (params_shortCode req) |} Hl)
    as (p & Hp & Hwait).
  rewrite Hp. cbn [filter]. rewrite Hwait. cbn [negb fold_left report].
  rewrite (locate_and_save_resumed_db req u p _ _ Hp).
  now rewrite serve_on_db.
Qed.

End Overlap.

(** X7: served on its own, the redirect route leaves the links as they are
    and removes no click: it adds nothing, or the one click of the resolved
    link. The click is inserted when the provider has answered, into the
    store as it is then, and the link is not looked up again: when a second
    request is served in the meantime, the click is added to what that
    request leaves, and when that request is the owner's successful delete
    of the link, the store ends with a click that refers to no link. *)
Theorem redirect_store_effect (w : World) (req : Request) (d : Db) :
  urls (db (serve w (redirect_handler req) d)) = urls d /\
  (clicks (db (serve w (redirect_handler req) d)) = clicks d \/
   exists u,
     resolve (urls d) (params_shortCode req) = Some u /\
     clicks (db (serve w (redirect_handler req) d)) =
     clicks d ++ [click_of req u (located w (getClientIP req))]) /\
  (forall u second,
     params_shortCode req <> "api" ->
     store_answers w (params_shortCode req) ->
     resolve (urls d) (params_shortCode req) = Some u ->
     is_local_ip (getClientIP req) = false ->
     db (serve_overlapping w (redirect_handler req) second d) =
     save_click_db w (click_of req u (located w (getClientIP req)))
       (db (serve w second d))) /\
  (forall u owner r,
     params_shortCode req <> "api" ->
     store_answers w (params_shortCode req) ->
     resolve (urls d) (params_shortCode req) = Some u ->
     is_local_ip (getClientIP req) = false ->
     ids_unique d ->
     params_id owner = Url._id u ->
     response_of (trace (serve w (delete_handler owner) d)) = Some r ->
     status r = 200 ->
     rejects w (OpClickCreate (click_of req u (located w (getClientIP req)))) = None ->
     ~ no_orphans
         (db (serve_overlapping w (redirect_handler req) (delete_handler owner) d))).
Proof.
  split; [|split; [|split]].
  - destruct (String.eqb_spec (params_shortCode req) "api") as [Hs|Hs].
    { now rewrite (redirect_serve_api w req d Hs). }
    destruct (rejects w (OpUrlFindOne (short_or_custom (params_shortCode req))))
      as [e|] eqn:Hw.
    { now rewrite (redirect_serve_store_error w req d e Hs Hw). }
    destruct (resolve (urls d) (params_shortCode req)) as [u|] eqn:Hr.
    2:{ now rewrite (redirect_serve_miss w req d Hs Hw Hr). }
    destruct (redirect_serve_hit w req d u Hs Hw Hr) as (rest & _ & Hrun).
    rewrite Hrun. simpl db. unfold save_click_db.
    now destruct (rejects w (OpClickCreate _)).
  - destruct (String.eqb_spec (params_shortCode req) "api") as [Hs|Hs].
    { rewrite (redirect_serve_api w req d Hs). now left. }
    destruct (rejects w (OpUrlFindOne (short_or_custom (params_shortCode req))))
      as [e|] eqn:Hw.
    { rewrite (redirect_serve_store_error w req d e Hs Hw). now left. }
    destruct (resolve (urls d) (params_shortCode req)) as [u|] eqn:Hr.
    2:{ rewrite (redirect_serve_miss w req d Hs Hw Hr). now left. }
    destruct (redirect_serve_hit w req d u Hs Hw Hr) as (rest & _ & Hrun).
    rewrite Hrun. simpl db. unfold save_click_db.
    destruct (rejects w (OpClickCreate _)); [now left|].
    right. now exists u.
  - intros u second Hs Hw Hr Hl. now apply redirect_overlapping_db.
  - intros u owner r Hs Hw Hr Hl Huniq Hid Hresp H200 Hok Hno.
    rewrite (redirect_overlapping_db w req (delete_handler owner) d u Hs Hw Hr Hl) in Hno.
    unfold save_click_db in Hno. rewrite Hok in Hno.
    destruct (delete_serve_cases w owner d) as (rt & Hrt & Hcases).
    rewrite Hrt in *.
    destruct Hcases as [(_ & (r0 & Hr0 & Hs0) & _)
                       | [(u0 & _ & _ & (r0 & Hr0 & Hs0) & _) | (u0 & Hf & Hdb & _)]];
      try congruence.
    destruct (owned_by_id_sound _ _ _ Hf) as (_ & Hid0 & _).
    rewrite Hdb in Hno. simpl in Hno.
    destruct (Hno (click_of req u (located w (getClientIP req)))) as (v & Hv & Hvid).
    { apply in_or_app. right. now left. }
    apply (remove_first_unique (Url._id u0) (urls d) v Huniq Hv).
    rewrite Hvid. simpl. congruence.
Qed.

Lemma redirect_store_effect_witness :
  ~ no_orphans
      (db (serve_overlapping world_calm (redirect_handler (request_for "abc123"))
             (delete_handler (request_for "abc123")) db_sample)).
Proof.
  destruct (redirect_store_effect world_calm (request_for "abc123") db_sample)
    as (_ & _ & _ & Horphan).
  apply (Horphan link_abc123 (request_for "abc123")
           {| status := 200; location := None;
              payload := JsonMessage true "URL deleted successfully" |});
    try reflexivity.
  - discriminate.
  - exact db_sample_ids_unique.
Defined.

(** ** Click route *)

Lemma click_of_body_labelled (id : ObjectId) (body : ClickBody) :
  click_labelled (click_of_body id body) /\ Click.ip (click_of_body id body) <> "".
Proof.
  unfold click_labelled, click_of_body. simpl.
  repeat split; apply or_else_nonempty; discriminate.
Qed.

(** X14: the click route stores what it is given without looking the link
    up. For a body that names an id and a store that accepts the insert it
    answers 201, the links are untouched and exactly one click is appended,
    every text field of which is non-empty (a missing or empty field takes
    its default); the only call made is [Click.create], so when no link has
    the id the store holds an orphaned click afterwards. A body without an
    id is answered 500 and nothing is stored. *)
Theorem store_click_unchecked (w : World) (body : ClickBody) (d : Db) :
  (forall id,
     body_urlId body = Some id ->
     rejects w (OpClickCreate (click_of_body id body)) = None ->
     serve_answer w (store_click_handler body) d =
       (Normal {| answer_status := 201;
                  answer_body := BodyClick (click_of_body id body) |},
        {| db := {| urls := urls d; clicks := clicks d ++ [click_of_body id body] |};
           trace := [Issued (OpClickCreate (click_of_body id body));
                     Settled (OpClickCreate (click_of_body id body)) true] |}) /\
     click_labelled (click_of_body id body) /\
     Click.ip (click_of_body id body) <> "" /\
     ((forall u, In u (urls d) -> Url._id u <> id) ->
      ~ no_orphans (db (snd (serve_answer w (store_click_handler body) d)))))
  /\ (body_urlId body = None ->
      exists message,
        fst (serve_answer w (store_click_handler body) d) =
          Normal {| answer_status := 500; answer_body := BodyMessage false message |} /\
        db (snd (serve_answer w (store_click_handler body) d)) = d).
Proof.
  split.
  - intros id Hid Hok.
    assert (Hrun :
      serve_answer w (store_click_handler body) d =
      (Normal {| answer_status := 201;
                 answer_body := BodyClick (click_of_body id body) |},
       {| db := {| urls := urls d; clicks := clicks d ++ [click_of_body id body] |};
          trace := [Issued (OpClickCreate (click_of_body id body));
                    Settled (OpClickCreate (click_of_body id body)) true] |})).
    { unfold serve_answer, store_click_handler. rewrite Hid.
      cbn. unfold settle. fold (click_of_body id body). rewrite Hok. reflexivity. }
    split; [exact Hrun|].
    destruct (click_of_body_labelled id body) as [Hl Hip].
    split; [exact Hl|]. split; [exact Hip|].
    intros Hnone Hno. rewrite Hrun in Hno. simpl in Hno.
    destruct (Hno (click_of_body id body)) as (u & Hin & Hu).
    + apply in_or_app. right. now left.
    + now apply (Hnone u Hin).
  - intros Hid. unfold serve_answer, store_click_handler. rewrite Hid. cbn.
    eexists. split; reflexivity.
Qed.

Lemma store_click_unchecked_witness :
  ~ no_orphans (db (snd (serve_answer world_calm (store_click_handler (body_bare 42))
                           db_sample))).
Proof.
  destruct (store_click_unchecked world_calm (body_bare 42) db_sample) as (Hstored & _).
  destruct (Hstored 42 eq_refl eq_refl) as (_ & _ & _ & Horphan).
  apply Horphan. intros u [<-|[<-|[]]]; discriminate.
Defined.

(** ** Reading one link *)

(** X15: reading a link never changes the store and never fails to answer.
    A 200 carries a stored link with the requested id that belongs to the
    caller; when the link with that id belongs to somebody else (ids being
    distinct) and the store answers, the answer is the same 404 as for an id
    no link has. *)
Theorem get_url_owner_only (w : World) (req : Request) (d : Db) :
  db (snd (serve_answer w (get_url_handler req) d)) = d /\
  (exists a, fst (serve_answer w (get_url_handler req) d) = Normal a /\
     (answer_status a = 200 ->
      exists u, answer_body a = BodyUrl u /\ In u (urls d) /\
                Url._id u = params_id req /\ Url.userId u = user_id req)) /\
  (ids_unique d ->
   rejects w (OpUrlFindOne (owned_by_id req)) = None ->
   forall u, In u (urls d) -> Url._id u = params_id req ->
             Url.userId u <> user_id req ->
             fst (serve_answer w (get_url_handler req) d) =
             Normal {| answer_status := 404;
                       answer_body := BodyMessage false "Short URL not found" |}).
Proof.
  unfold serve_answer, get_url_handler.
  cbn -[satisfies]. unfold settle. fold (owned_by_id req).
  destruct (rejects w (OpUrlFindOne (owned_by_id req))) as [e|] eqn:Hq.
  { cbn. split; [reflexivity|]. split; [|discriminate].
    eexists. split; [reflexivity|]. discriminate. }
  cbn -[satisfies].
  destruct (find (satisfies (owned_by_id req)) (urls d)) as [u0|] eqn:Hf; cbn.
  - destruct (owned_by_id_sound _ _ _ Hf) as (Hin & Hid & Hown).
    split; [reflexivity|]. split.
    + eexists. split; [reflexivity|]. intros _. exists u0. auto.
    + intros Huniq _ u Hu Huid Hother. destruct Hother.
      rewrite <- Hown. f_equal.
      apply (same_id_same_link (urls d)); auto. congruence.
  - split; [reflexivity|]. split; [|reflexivity].
    eexists. split; [reflexivity|]. discriminate.
Qed.

Lemma get_url_owner_only_witness :
  fst (serve_answer world_calm (get_url_handler request_read_1_as_8) db_sample) =
  Normal {| answer_status := 404;
            answer_body := BodyMessage false "Short URL not found" |}.
Proof.
  refine (proj2 (proj2 (get_url_owner_only world_calm request_read_1_as_8 db_sample))
            db_sample_ids_unique eq_refl link_abc123 _ eq_refl _).
  - now left.
  - discriminate.
Defined.

(** ** What a stored click looks like *)

Lemma getBrowser_nonempty (ua : string) : getBrowser ua <> "".
Proof.
  unfold getBrowser. cbv zeta.
  repeat match goal with
         | |- context [if ?b then _ else _] => destruct b
         end; discriminate.
Qed.

Lemma getOS_nonempty (ua : string) : getOS ua <> "".
Proof.
  unfold getOS. cbv zeta.
  repeat match goal with
         | |- context [if ?b then _ else _] => destruct b
         end; discriminate.
Qed.

Lemma getDeviceType_nonempty (ua : string) : getDeviceType ua <> "".
Proof.
  unfold getDeviceType. cbv zeta.
  repeat match goal with
         | |- context [if ?b then _ else _] => destruct b
         end; discriminate.
Qed.

Lemma located_nonempty (w : World) (ip : string) :
  city (located w ip) <> "" /\ country (located w ip) <> "" /\ region (located w ip) <> "".
Proof.
  unfold located. destruct (is_local_ip ip); [repeat split; discriminate|].
  destruct (lookup_outcome w ip) as [| |fields]; try (repeat split; discriminate).
  destruct (status_success fields); [|repeat split; discriminate].
  simpl. repeat split; apply or_else_nonempty; discriminate.
Qed.

(** X16: whatever the request and the provider's answer, the click the
    redirect route saves has a non-empty city, country, region, device,
    browser, operating system and referer: an empty value from the provider
    or a missing header is replaced by its default. *)
Theorem redirect_click_labelled (w : World) (req : Request) (d : Db) (u : Url.t) :
  resolve (urls d) (params_shortCode req) = Some u ->
  click_labelled (click_of req u (located w (getClientIP req))) /\
  (clicks (db (serve w (redirect_handler req) d)) = clicks d \/
   clicks (db (serve w (redirect_handler req) d)) =
   clicks d ++ [click_of req u (located w (getClientIP req))]).
Proof.
  intros Hr. split.
  - destruct (located_nonempty w (getClientIP req)) as (Hc & Hn & Hg).
    unfold click_labelled, click_of. simpl.
    repeat split; auto using getDeviceType_nonempty, getBrowser_nonempty, getOS_nonempty.
    apply or_else_nonempty. discriminate.
  - destruct (String.eqb_spec (params_shortCode req) "api") as [Hs|Hs].
    { rewrite (redirect_serve_api w req d Hs). now left. }
    destruct (rejects w (OpUrlFindOne (short_or_custom (params_shortCode req))))
      as [e|] eqn:Hw.
    { rewrite (redirect_serve_store_error w req d e Hs Hw). now left. }
    destruct (redirect_serve_hit w req d u Hs Hw Hr) as (rest & _ & Hrun).
    rewrite Hrun. simpl db. unfold save_click_db.
    destruct (rejects w (OpClickCreate _)); [now left | now right].
Qed.

Lemma redirect_click_labelled_witness :
  click_labelled
    (click_of (request_for "abc123") link_abc123
       (located world_offline (getClientIP (request_for "abc123")))).
Proof.
  apply (redirect_click_labelled world_offline (request_for "abc123") db_sample link_abc123).
  reflexivity.
Defined.

(** ** Route table *)

Section RoutingFacts.

Import JsString Routing.

Lemma lower_unit_slash (c : ascii) :
  Ascii.eqb (toLowerCase_unit c) "/" = Ascii.eqb c "/".
Proof. destruct c as [[] [] [] [] [] [] [] []]; reflexivity. Qed.

Lemma split_first_lower (s : string) :
  split_first "/" (toLowerCase s) = toLowerCase (split_first "/" s).
Proof.
  induction s as [|c s IH]; [reflexivity|].
  simpl. rewrite lower_unit_slash.
  destruct (Ascii.eqb c "/"); [reflexivity|]. simpl. now rewrite IH.
Qed.

Lemma skip_segment_lower (s : string) :
  skip_segment (toLowerCase s) = toLowerCase (skip_segment s).
Proof.
  induction s as [|c s IH]; [reflexivity|].
  simpl. rewrite lower_unit_slash.
  destruct (Ascii.eqb c "/"); [reflexivity | exact IH].
Qed.

Lemma eqb_empty_lower (s : string) : String.eqb (toLowerCase s) "" = String.eqb s "".
Proof. destruct s; reflexivity. Qed.

Lemma eqb_slash_lower (s : string) : String.eqb (toLowerCase s) "/" = String.eqb s "/".
Proof.
  destruct s as [|c [|c' s]]; try reflexivity.
  - simpl. rewrite lower_unit_slash. reflexivity.
  - simpl. rewrite lower_unit_slash. reflexivity.
Qed.

Lemma route_end_lower (s : string) : route_end (toLowerCase s) = route_end s.
Proof. unfold route_end. now rewrite eqb_empty_lower, eqb_slash_lower. Qed.

Lemma is_root_lower (s : string) : is_root (toLowerCase s) = is_root s.
Proof. unfold is_root. now rewrite eqb_empty_lower, eqb_slash_lower. Qed.

Lemma one_param_lower (s : string) :
  one_param (toLowerCase s) = option_map toLowerCase (one_param s).
Proof.
  destruct s as [|c s]; [reflexivity|].
  unfold one_param. simpl toLowerCase. cbv iota.
  rewrite lower_unit_slash, split_first_lower, truthy_lower, skip_segment_lower,
    route_end_lower.
  destruct (_ && _ && _); reflexivity.
Qed.

Lemma strip_prefix_i_lower (prefix s : string) :
  strip_prefix_i prefix (toLowerCase s) = option_map toLowerCase (strip_prefix_i prefix s).
Proof.
  revert s. induction prefix as [|p prefix IH]; intros s; [reflexivity|].
  destruct s as [|c s]; [reflexivity|].
  simpl. rewrite toLowerCase_unit_idem.
  destruct (Ascii.eqb _ _); [apply IH | reflexivity].
Qed.

(** A path that a literal route matches is, lower-cased, the literal with or
    without a slash at its end. *)
Lemma strip_prefix_i_shape (prefix s rest : string) :
  strip_prefix_i prefix s = Some rest ->
  toLowerCase s = (toLowerCase prefix ++ toLowerCase rest)%string.
Proof.
  revert s. induction prefix as [|p prefix IH]; intros s; simpl.
  - intros H. now injection H as ->.
  - destruct s as [|c s]; [discriminate|].
    destruct (Ascii.eqb_spec (toLowerCase_unit c) (toLowerCase_unit p)) as [Hc|];
      [|discriminate].
    intros H. simpl. rewrite Hc. f_equal. now apply IH.
Qed.

Lemma match_literal_shape (literal path : string) :
  match_literal literal path = true ->
  toLowerCase path = toLowerCase literal \/
  toLowerCase path = (toLowerCase literal ++ "/")%string.
Proof.
  unfold match_literal.
  destruct (strip_prefix_i literal path) as [rest|] eqn:Hs; [|discriminate].
  intros He. rewrite (strip_prefix_i_shape _ _ _ Hs).
  unfold route_end in He. apply orb_true_iff in He as [He|He];
    apply String.eqb_eq in He; subst rest.
  - left. simpl. clear. induction (toLowerCase literal); simpl; congruence.
  - right. reflexivity.
Qed.

Lemma redirect_get_lower (path : string) :
  redirect_get (toLowerCase path) = option_map lower_route (redirect_get path).
Proof.
  unfold redirect_get. rewrite is_root_lower, one_param_lower, strip_prefix_i_lower.
  destruct (is_root path); [reflexivity|].
  destruct (one_param path); [reflexivity|]. cbn [option_map].
  destruct (strip_prefix_i "/api/lookup" path) as [rest|]; [|reflexivity].
  cbn [option_map]. rewrite one_param_lower. destruct (one_param rest); reflexivity.
Qed.







End RoutingFacts.

Section RoutingTheorems.

Import JsString Routing.

Lemma healthz_is_a_short_code (path : string) :
  match_literal "/healthz" path = true ->
  exists segment, redirect_get path = Some (Redirect segment) /\
                  toLowerCase segment = "healthz".
Proof.
  intros Hm. pose proof (redirect_get_lower path) as Hl.
  apply match_literal_shape in Hm.
  assert (Hlow : redirect_get (toLowerCase path) = Some (Redirect "healthz")).
  { destruct Hm as [-> | ->]; reflexivity. }
  rewrite Hlow in Hl.
  destruct (redirect_get path) as [[]|]; try discriminate Hl.
  eexists. split; [reflexivity|]. simpl in Hl. now injection Hl.
Qed.

(** Case analysis on the tests a route table makes, innermost first. *)
Ltac split_matches H :=
  repeat match type of H with
         | context [match ?x with _ => _ end] =>
             lazymatch x with
             | context [match _ with _ => _ end] => fail
             | _ => destruct x eqn:?
             end
         end.

Lemma healthz_only_by_its_pattern (path : string) :
  route_of path = Some Healthz -> match_literal "/healthz" path = true.
Proof.
  unfold route_of, app_layers, first_match, mounted, auth_get, urls_get,
    clicks_get, redirect_get, option_map.
  intros Ht.
  split_matches Ht; try discriminate Ht; reflexivity.
Qed.

Lemma healthz_not_mounted (prefix : string) (router : string -> option (Route string))
    (path : string) :
  match_literal "/healthz" path = true ->
  mounted (String "/" (String "a" prefix)) router path = None.
Proof.
  intros Hm. unfold mounted, mount_rest.
  destruct (strip_prefix_i (String "/" (String "a" prefix)) path) as [rest|] eqn:Hs;
    [|reflexivity].
  apply strip_prefix_i_shape in Hs.
  apply match_literal_shape in Hm. destruct Hm as [Hm|Hm]; rewrite Hm in Hs;
    discriminate Hs.
Qed.

Lemma healthz_route (path : string) :
  match_literal "/healthz" path = true ->
  exists segment, route_of path = Some (Redirect segment) /\
                  toLowerCase segment = "healthz".
Proof.
  intros Hm. destruct (healthz_is_a_short_code path Hm) as (s & Hr & Hs).
  exists s. split; [|exact Hs].
  unfold route_of, app_layers, first_match.
  rewrite !(healthz_not_mounted _ _ path Hm).
  now rewrite Hr.
Qed.


(** *** Decoding *)

Lemma lower_unit_percent (c : ascii) :
  Ascii.eqb (toLowerCase_unit c) "%" = Ascii.eqb c "%".
Proof. destruct c as [[] [] [] [] [] [] [] []]; reflexivity. Qed.

Lemma includes_percent_lower (s : string) :
  includes (toLowerCase s) "%" = includes s "%".
Proof.
  induction s as [|c s IH]; [reflexivity|].
  cbn [toLowerCase]. rewrite !includes_unit, lower_unit_percent. now rewrite IH.
Qed.

Lemma decode_tokens_units (l : list ascii) :
  decode_tokens (map Unit l) = Some (map N_of_ascii l).
Proof.
  induction l as [|c l IH]; [reflexivity|].
  cbn [map decode_tokens]. now rewrite IH.
Qed.

(** Text without a percent sign decodes to itself. *)
Lemma decode_plain (s : string) :
  includes s "%" = false -> decodeURIComponent s = Some (code_units s).
Proof.
  intros Hno. unfold decodeURIComponent, code_units.
  assert (He : escapes s = Some (map Unit (list_ascii_of_string s))).
  { induction s as [|c s IH]; [reflexivity|].
    rewrite includes_unit in Hno. apply orb_false_iff in Hno as [Hc Hno].
    cbn [escapes list_ascii_of_string map]. rewrite Hc. now rewrite (IH Hno). }
  rewrite He. apply decode_tokens_units.
Qed.


Lemma decode_params_healthz (route : Route string) :
  decode_params route = Some Healthz -> route = Healthz.
Proof.
  destruct route as [| |id|id| |s|s| |]; cbn [decode_params]; try discriminate;
    try (destruct (decodeURIComponent _); discriminate).
  reflexivity.
Qed.

(** X17: no GET request reaches the handler registered for /healthz. Every
    path that handler's pattern matches is taken before by the redirect
    router, which is mounted ahead of it, as the short code "healthz" (in the
    letter case of the request). *)
Theorem healthz_unreachable (path : string) :
  dispatch_get path <> Reach Healthz /\
  (match_literal "/healthz" path = true ->
   exists shortCode,
     dispatch_get path = Reach (Redirect (code_units shortCode)) /\
     toLowerCase shortCode = "healthz").
Proof.
  assert (Hb : match_literal "/healthz" path = true ->
               exists shortCode,
                 dispatch_get path = Reach (Redirect (code_units shortCode)) /\
                 toLowerCase shortCode = "healthz").
  { intros Hm. destruct (healthz_route path Hm) as (s & Hr & Hs).
    exists s. split; [|exact Hs].
    unfold dispatch_get. rewrite Hr. cbn [decode_params].
    rewrite decode_plain; [reflexivity|].
    now rewrite <- includes_percent_lower, Hs. }
  split; [|exact Hb].
  intros Ht. unfold dispatch_get in Ht.
  destruct (route_of path) as [route|] eqn:Hroute; [|discriminate Ht].
  destruct (decode_params route) as [decoded|] eqn:Hd; [|discriminate Ht].
  injection Ht as ->. apply decode_params_healthz in Hd. subst route.
  destruct (Hb (healthz_only_by_its_pattern path Hroute)) as (s & Hs & _).
  unfold dispatch_get in Hs. rewrite Hroute in Hs. discriminate Hs.
Qed.

Lemma healthz_unreachable_witness :
  exists shortCode, dispatch_get "/healthz" = Reach (Redirect (code_units shortCode)).
Proof.
  destruct (healthz_unreachable "/healthz") as (_ & Hredirect).
  destruct (Hredirect eq_refl) as (s & Hs & _). now exists s.
Defined.



End RoutingTheorems.
